(** * store-management: telemetry aggregation, classification and ledger reconciliation

    A shallow embedding of the Angular services of the repository

    - [sensor-history.service.ts]  (the rolling window of sensor readings),
    - [iot.service.ts]             (the telemetry aggregator and status classifier),
    - [warehouse.service.ts]       (the ledger reconciliation and the timestamp codec),
    - [dashboard.component.ts]     (the theft alert and its timer),

    followed by the properties of these definitions.

    JavaScript numbers are IEEE 754 binary64 values: they are modelled by Rocq's
    primitive floats, whose operations are the same binary64 operations.  Arrays
    and objects are mutable and shared in JavaScript: the rolling window is
    modelled over an explicit store of arrays and of reading objects, both
    addressed by references.  Engine builtins whose
    result the repository does not fix ([parseFloat], [Number], [Date]) are
    the methods of the classes [ParseFloat], [DateParse] and [DateFormat]. *)

From Stdlib Require Import Floats ZArith Lia Ascii Sorting.Permutation.
From Stdlib Require Uint63.
From stdpp Require Import gmap strings list pretty.

Set Warnings "-inexact-float,-register-all".
Set Default Proof Using "Type".

(* ===================================================================== *)
(** * Part I: definitions                                                 *)
(* ===================================================================== *)

(** ** JavaScript values *)

Module Js.

(** A JavaScript [number]. *)
Abbreviation number := float (only parsing).

(** [x >= y] and [x <= y] on numbers; both are false when an operand is NaN. *)
Definition ge (x y : number) : bool := (y <=? x)%float.
Definition le (x y : number) : bool := (x <=? y)%float.
Definition gt (x y : number) : bool := (y <? x)%float.
Definition lt (x y : number) : bool := (x <? y)%float.

(** [ToBoolean] on a number: [NaN], [+0] and [-0] are falsy. *)
Definition truthy_num (x : number) : bool := negb (is_nan x || is_zero x).

(** [x || d] on numbers. *)
Definition or_num (x d : number) : number := if truthy_num x then x else d.

(** The length of an array as a number. *)
Definition of_nat (n : nat) : number := of_uint63 (Uint63.of_Z (Z.of_nat n)).

(** [Math.max(...xs)]: starts from [-Infinity]; NaN is contagious; [+0] is
    larger than [-0]. *)
Definition max_step (highest x : number) : number :=
  if (is_zero x && is_zero highest && negb (get_sign x) && get_sign highest)%bool
  then x
  else if gt x highest then x else highest.

Definition Math_max (xs : list number) : number :=
  if existsb is_nan xs then nan else fold_left max_step xs neg_infinity.

(** [Math.min(...xs)]: starts from [+Infinity]; NaN is contagious; [-0] is
    smaller than [+0]. *)
Definition min_step (lowest x : number) : number :=
  if (is_zero x && is_zero lowest && get_sign x && negb (get_sign lowest))%bool
  then x
  else if lt x lowest then x else lowest.

Definition Math_min (xs : list number) : number :=
  if existsb is_nan xs then nan else fold_left min_step xs infinity.

(** A value delivered by the realtime database: a JSON tree.  The database
    stores no [null], so a tree holds none; [undefined] and [null] appear only
    as the absence of a value ([None]).  The properties of an object are listed
    in the order [Object.keys] enumerates them; an array is the object of its
    indices. *)
Inductive JsVal : Type :=
| JBool (b : bool)
| JNum (x : number)
| JStr (s : string)
| JObj (props : list (string * JsVal)).

(** [ToBoolean]. *)
Definition truthy (v : JsVal) : bool :=
  match v with
  | JBool b => b
  | JNum x => truthy_num x
  | JStr s => negb (String.eqb s "")
  | JObj _ => true
  end.

(** [o || d], where [o] may be [undefined]. *)
Definition or_else (o : option JsVal) (d : JsVal) : JsVal :=
  match o with
  | Some v => if truthy v then v else d
  | None => d
  end.

Fixpoint lookup_prop (k : string) (props : list (string * JsVal)) : option JsVal :=
  match props with
  | [] => None
  | (k', v) :: rest => if String.eqb k k' then Some v else lookup_prop k rest
  end.

(** Strings are held in UTF-8, while JavaScript indexes a string by UTF-16
    code units.  A character of one to three bytes is one code unit; a
    character of four bytes is two, a surrogate pair, each of which is
    written here in the three-byte form of its code. *)
Definition surrogate (u : N) : string :=
  String (Ascii.ascii_of_N (224 + u / 4096))
    (String (Ascii.ascii_of_N (128 + (u / 64) mod 64))
       (String (Ascii.ascii_of_N (128 + u mod 64)) EmptyString)).

(** The code units of a string, each as a string; a sequence cut short by the
    end of the string is one unit. *)
Fixpoint code_units (s : string) : list string :=
  match s with
  | EmptyString => []
  | String b0 rest =>
      let n0 := Ascii.N_of_ascii b0 in
      if (n0 <? 192)%N then String b0 EmptyString :: code_units rest
      else
        match rest with
        | EmptyString => [s]
        | String b1 rest1 =>
            if (n0 <? 224)%N
            then String b0 (String b1 EmptyString) :: code_units rest1
            else
              match rest1 with
              | EmptyString => [s]
              | String b2 rest2 =>
                  if (n0 <? 240)%N
                  then String b0 (String b1 (String b2 EmptyString)) :: code_units rest2
                  else
                    match rest2 with
                    | EmptyString => [s]
                    | String b3 rest3 =>
                        let c := ((n0 mod 8) * 262144
                                  + (Ascii.N_of_ascii b1 mod 64) * 4096
                                  + (Ascii.N_of_ascii b2 mod 64) * 64
                                  + Ascii.N_of_ascii b3 mod 64 - 65536)%N in
                        surrogate (55296 + c / 1024)
                          :: surrogate (56320 + c mod 1024)
                          :: code_units rest3
                    end
              end
        end
  end.

(** The [i]-th code unit of a string, as a string of one unit. *)
Definition char_at (s : string) (i : nat) : option JsVal :=
  match code_units s !! i with
  | Some c => Some (JStr c)
  | None => None
  end.

(** [s.length]. *)
Definition string_length (s : string) : nat := length (code_units s).

(** [Object.keys(v)] for a non-null [v]: the own enumerable property names.  A
    string has its indices, a boolean and a number have none. *)
Definition keys (v : JsVal) : list string :=
  match v with
  | JObj props => map fst props
  | JStr s => map (fun i : nat => pretty i) (seq 0 (string_length s))
  | JBool _ | JNum _ => []
  end.

(** [v.k] / [v[k]] for a non-null [v]; [None] is [undefined].  The accessors
    below read only own keys and the names [quantity], [history], [alarm],
    [door], [event], [amount], [ton_sau], [type], [temperature] and
    [humidity], none of which a prototype defines. *)
Definition get (v : JsVal) (k : string) : option JsVal :=
  match v with
  | JObj props => lookup_prop k props
  | JStr s =>
      if String.eqb k "length" then Some (JNum (of_nat (string_length s)))
      else match find (fun i : nat => String.eqb (pretty i) k) (seq 0 (string_length s)) with
           | Some i => char_at s i
           | None => None
           end
  | JBool _ | JNum _ => None
  end.

(** [o.k] where [o] is known to be truthy when it is read (so not undefined);
    on [None] the read is never reached by the code below. *)
Definition get_opt (o : option JsVal) (k : string) : option JsVal :=
  match o with Some v => get v k | None => None end.

(** A [DataSnapshot]: [None] when [snapshot.exists()] is false. *)
Definition DataSnapshot := option JsVal.

(** [s.split(c)] for a one-character separator: never empty. *)
Fixpoint split (c : Ascii.ascii) (s : string) : list string :=
  match s with
  | EmptyString => [EmptyString]
  | String a rest =>
      if Ascii.eqb a c then EmptyString :: split c rest
      else match split c rest with
           | [] => [String a EmptyString]
           | w :: ws => String a w :: ws
           end
  end.

(** [Array.prototype.sort(comparefn)].  The comparator's result [v] is read as
    ECMAScript's SortCompare does: NaN counts as [+0], a negative [v] puts the
    first argument first.  The sort is stable; it is modelled by insertion,
    which every stable sort agrees with on a consistent comparator, for
    instance one that answers NaN on every pair.  On an inconsistent
    comparator ECMAScript leaves the order to the engine: nothing below
    depends on the order then, only on the result being a rearrangement. *)
Section Sort.
Context {A : Type} (comparefn : A -> A -> number).

Definition SortCompare (x y : A) : number :=
  let v := comparefn x y in if is_nan v then 0%float else v.

Fixpoint sort_insert (x : A) (l : list A) : list A :=
  match l with
  | [] => [x]
  | y :: l' => if gt (SortCompare x y) 0 then y :: sort_insert x l' else x :: l
  end.

Fixpoint sort (l : list A) : list A :=
  match l with
  | [] => []
  | x :: l' => sort_insert x (sort l')
  end.
End Sort.

(** The builtins of the engine that the services call and whose results the
    repository does not determine. *)

(** [parseFloat(v)], [v] possibly undefined. *)
Class ParseFloat := parseFloat : option JsVal -> number.

(** [new Date(s).getTime()]: the time value of a parsed string, NaN when the
    engine does not recognise it. *)
Class DateParse := Date_parse : string -> number.

Class DateFormat := {
  (** [Number(s)] on a string. *)
  Number : string -> number;
  (** The time value of [new Date(year, monthIndex, day, hour, minute, second)]
      on finite arguments (local time, clipped). *)
  Date_local : number -> number -> number -> number -> number -> number -> number;
  (** [toLocaleString('vi-VN', ...)] of a valid date. *)
  format_viVN : number -> string
}.

End Js.

(** ** A stand-in for the engine's date parser, for the examples *)

Module SampleEngine.
Import Js.

Definition digit (c : Ascii.ascii) : option Z :=
  let n := Ascii.nat_of_ascii c in
  if (48 <=? n)%nat && (n <=? 57)%nat then Some (Z.of_nat (n - 48)) else None.

Fixpoint digits_from (acc : Z) (s : string) : option Z :=
  match s with
  | EmptyString => Some acc
  | String c rest =>
      match digit c with
      | Some d => digits_from (10 * acc + d) rest
      | None => None
      end
  end.

(** The days from 1970-01-01 to the given day of the proleptic Gregorian
    calendar. *)
Definition days_from_civil (y m d : Z) : Z :=
  let y' := if (m <=? 2)%Z then (y - 1)%Z else y in
  let era := (y' / 400)%Z in
  let yoe := (y' - era * 400)%Z in
  let mp := ((m + 9) mod 12)%Z in
  let doy := ((153 * mp + 2) / 5 + d - 1)%Z in
  let doe := (yoe * 365 + yoe / 4 - yoe / 100 + doy)%Z in
  (era * 146097 + doe - 719468)%Z.

Definition number_of_Z (z : Z) : number :=
  if (z <? 0)%Z then (- of_uint63 (Uint63.of_Z (- z)))%float
  else of_uint63 (Uint63.of_Z z).

(** [Date.parse] restricted to the form [YYYY-MM-DDTHH:mm:ssZ] of the
    ECMAScript date-time format: the milliseconds since the epoch, and NaN on
    every other string.  A key of the ledger, [YYYY-MM-DD_HH-mm-ss], is such
    another string; V8 rejects it as well (a word that is no keyword after a
    number). *)
Definition parse_utc (s : string) : number :=
  let field i n := digits_from 0 (String.substring i n s) in
  let sep i c := String.eqb (String.substring i 1 s) c in
  if (String.length s =? 20)%nat
     && sep 4 "-" && sep 7 "-" && sep 10 "T" && sep 13 ":" && sep 16 ":" && sep 19 "Z"
  then
    match field 0 4, field 5 2, field 8 2, field 11 2, field 14 2, field 17 2 with
    | Some y, Some mo, Some d, Some h, Some mi, Some se =>
        if ((1 <=? mo) && (mo <=? 12) && (1 <=? d) && (d <=? 31)
            && (h <=? 23) && (mi <=? 59) && (se <=? 59))%Z
        then number_of_Z
               ((((days_from_civil y mo d * 24 + h) * 60 + mi) * 60 + se) * 1000)%Z
        else nan
    | _, _, _, _, _, _ => nan
    end
  else nan.

#[export] Instance sample_Date_parse : DateParse := parse_utc.

End SampleEngine.

(** ** sensor-history.service.ts *)

Module SensorHistoryService.
Import Js.

Record SensorReading := {
  temperature : number;
  humidity : number;
  timestamp : number
}.

(** References.  Arrays and reading objects are shared mutable objects: the
    subject holds a reference to an array, and so does every caller that was
    handed one; an array holds references to reading objects, and a copy of
    the array holds the same references. *)
Definition loc := nat.
Definition obj := nat.

Record state := {
  (** the reading objects allocated so far *)
  objects : gmap obj SensorReading;
  (** the arrays allocated so far *)
  store : gmap loc (list obj);
  (** [readingsSubject.value] *)
  readingsSubject : loc
}.

Definition maxReadings : nat := 100.

Definition deref (h : gmap loc (list obj)) (l : loc) : list obj :=
  default [] (h !! l).

(** The readings that the elements of an array refer to.  In JavaScript a
    reference always refers to an object; an element that refers to none
    (which no function below produces) is passed over. *)
Definition contents (o : gmap obj SensorReading) (a : list obj) : list SensorReading :=
  omap (fun r => o !! r) a.

(** A new array with the given elements. *)
Definition alloc (a : list obj) (h : gmap loc (list obj)) : loc * gmap loc (list obj) :=
  let l := fresh (dom h) in (l, <[l := a]> h).

(** [{ temperature, humidity, timestamp }]: a new object. *)
Definition new_object (x : SensorReading) (o : gmap obj SensorReading)
  : obj * gmap obj SensorReading :=
  let r := fresh (dom o) in (r, <[r := x]> o).

(** [a.push(x)] and [a.shift()], in place. *)
Definition array_push (l : loc) (x : obj) (h : gmap loc (list obj)) :=
  alter (fun a => a ++ [x]) l h.
Definition array_shift (l : loc) (h : gmap loc (list obj)) :=
  alter (drop 1) l h.

(** [new BehaviorSubject<SensorReading[]>([])]. *)
Definition init : state :=
  {| objects := ∅; store := {[ 0 := [] ]}; readingsSubject := 0 |}.

(** [readingsSubject.next(ref)]. *)
Definition next (l : loc) (o : gmap obj SensorReading) (h : gmap loc (list obj)) : state :=
  {| objects := o; store := h; readingsSubject := l |}.

(** The contents of the array the subject currently holds. *)
Definition value (s : state) : list SensorReading :=
  contents (objects s) (deref (store s) (readingsSubject s)).

(** [addReading(temperature, humidity)]; [now] is what [Date.now()] returns. *)
Definition addReading (temperature humidity now : number) (s : state) : state :=
  let readings := readingsSubject s in
  let '(newReading, o1) :=
    new_object {| temperature := temperature; humidity := humidity; timestamp := now |}
               (objects s) in
  let h1 := array_push readings newReading (store s) in
  let h2 :=
    if (maxReadings <? length (deref h1 readings))%nat
    then array_shift readings h1 else h1 in
  (* [...readings]: a new array of the same objects *)
  let '(copy, h3) := alloc (deref h2 readings) h2 in
  next copy o1 h3.

Definition getAverageTemperature (s : state) : number :=
  let readings := value s in
  if (length readings =? 0)%nat then 0%float
  else
    let sum := fold_left (fun acc r => (acc + temperature r)%float) readings 0%float in
    (sum / of_nat (length readings))%float.

Definition getAverageHumidity (s : state) : number :=
  let readings := value s in
  if (length readings =? 0)%nat then 0%float
  else
    let sum := fold_left (fun acc r => (acc + humidity r)%float) readings 0%float in
    (sum / of_nat (length readings))%float.

Definition getMaxTemperature (s : state) : number :=
  let readings := value s in
  if (length readings =? 0)%nat then 0%float
  else Math_max (map temperature readings).

Definition getMinTemperature (s : state) : number :=
  let readings := value s in
  if (length readings =? 0)%nat then 0%float
  else Math_min (map temperature readings).

Definition getMaxHumidity (s : state) : number :=
  let readings := value s in
  if (length readings =? 0)%nat then 0%float
  else Math_max (map humidity readings).

Definition getMinHumidity (s : state) : number :=
  let readings := value s in
  if (length readings =? 0)%nat then 0%float
  else Math_min (map humidity readings).

(** [clearReadings()]: publishes a new empty array. *)
Definition clearReadings (s : state) : state :=
  let '(empty, h) := alloc [] (store s) in next empty (objects s) h.

(** [getAllReadings()]: the reference the subject holds. *)
Definition getAllReadings (s : state) : loc := readingsSubject s.

(** What a caller does with a reference to an array it holds.  It reads the
    array; it updates the array in place, rearranging or removing elements
    ([pop], [shift], [length = 0], [sort], [reverse], [splice], ...); it
    pushes a new reading object; it assigns to the fields of the [i]-th
    reading ([a[i].temperature = v]), which throws and changes nothing when
    there is no [i]-th element. *)
Definition read (l : loc) (s : state) : list SensorReading :=
  contents (objects s) (deref (store s) l).

Definition mutate (l : loc) (f : list obj -> list obj) (s : state) : state :=
  {| objects := objects s;
     store := alter f l (store s);
     readingsSubject := readingsSubject s |}.

Definition push (l : loc) (x : SensorReading) (s : state) : state :=
  let '(r, o) := new_object x (objects s) in
  {| objects := o;
     store := array_push l r (store s);
     readingsSubject := readingsSubject s |}.

Definition update (l : loc) (i : nat) (g : SensorReading -> SensorReading) (s : state)
  : state :=
  match deref (store s) l !! i with
  | Some r =>
      {| objects := alter g r (objects s);
         store := store s;
         readingsSubject := readingsSubject s |}
  | None => s
  end.

(** A run of [addReading] calls, one per [(temperature, humidity, now)]. *)
Definition addReadings (rs : list (number * number * number)) (s : state) : state :=
  fold_left (fun s r => addReading r.1.1 r.1.2 r.2 s) rs s.

Definition reading_of (r : number * number * number) : SensorReading :=
  {| temperature := r.1.1; humidity := r.1.2; timestamp := r.2 |}.

End SensorHistoryService.

(** ** iot.service.ts *)

Module IoTService.
Import Js.

Inductive Status := optimal | warning | critical.

Record state := {
  temperatureSubject : number;
  humiditySubject : number;
  motionSubject : JsVal;
  statusSubject : Status;
  lastUpdatedSubject : number;
  isLoadingSubject : bool;
  sensorHistory : SensorHistoryService.state
}.

(** The field initialisers; [now] is the time value of [new Date()]. *)
Definition init (now : number) : state :=
  {| temperatureSubject := 0%float;
     humiditySubject := 0%float;
     motionSubject := JBool false;
     statusSubject := optimal;
     lastUpdatedSubject := now;
     isLoadingSubject := true;
     sensorHistory := SensorHistoryService.init |}.

(** The status [updateStatus] publishes. *)
Definition status_of (temperature humidity : number) : Status :=
  let tempOptimal := ge temperature 16 && le temperature 26 in
  let humidityOptimal := ge humidity 30 && le humidity 60 in
  let tempWarning := ge temperature 12 && le temperature 30 in
  let humidityWarning := ge humidity 20 && le humidity 70 in
  if tempOptimal && humidityOptimal then optimal
  else if tempWarning && humidityWarning then warning
  else critical.

Definition updateStatus (temperature humidity : number) (s : state) : state :=
  {| temperatureSubject := temperatureSubject s;
     humiditySubject := humiditySubject s;
     motionSubject := motionSubject s;
     statusSubject := status_of temperature humidity;
     lastUpdatedSubject := lastUpdatedSubject s;
     isLoadingSubject := isLoadingSubject s;
     sensorHistory := sensorHistory s |}.

Section Listen.
Context `{ParseFloat}.

(** The value callback of the [warehouse] listener; [date] is the time value
    of [new Date()] and [now] what [Date.now()] returns in [addReading]. *)
Definition onSensorValue (snapshot : DataSnapshot) (date now : number) (s : state) : state :=
  match snapshot with
  | Some data =>
      let temperature := or_num (parseFloat (get data "temperature")) 0 in
      let humidity := or_num (parseFloat (get data "humidity")) 0 in
      let s1 :=
        {| temperatureSubject := temperature;
           humiditySubject := humidity;
           motionSubject := motionSubject s;
           statusSubject := statusSubject s;
           lastUpdatedSubject := date;
           isLoadingSubject := false;
           sensorHistory :=
             SensorHistoryService.addReading temperature humidity now (sensorHistory s) |} in
      updateStatus temperature humidity s1
  | None => s
  end.

End Listen.

(** The error callback of the [warehouse] listener (the message it logs to
    the console is not part of the state). *)
Definition onSensorError (s : state) : state :=
  {| temperatureSubject := temperatureSubject s;
     humiditySubject := humiditySubject s;
     motionSubject := motionSubject s;
     statusSubject := statusSubject s;
     lastUpdatedSubject := lastUpdatedSubject s;
     isLoadingSubject := false;
     sensorHistory := sensorHistory s |}.

(** The value and error callbacks of the [motion] listener. *)
Definition onMotionValue (snapshot : DataSnapshot) (s : state) : state :=
  match snapshot with
  | Some motion =>
      {| temperatureSubject := temperatureSubject s;
         humiditySubject := humiditySubject s;
         motionSubject := motion;
         statusSubject := statusSubject s;
         lastUpdatedSubject := lastUpdatedSubject s;
         isLoadingSubject := isLoadingSubject s;
         sensorHistory := sensorHistory s |}
  | None => s
  end.

Definition onMotionError (s : state) : state := s.

Definition getTemperature (s : state) : number := temperatureSubject s.
Definition getHumidity (s : state) : number := humiditySubject s.
Definition getMotion (s : state) : JsVal := motionSubject s.
Definition getStatus (s : state) : Status := statusSubject s.

End IoTService.

(** ** warehouse.service.ts *)

Module WarehouseService.
Import Js.

(** The interfaces are erased at run time: a field holds whatever the
    snapshot held, or the default. *)
Record InventoryTransaction := {
  date : string;
  amount : JsVal;
  ton_sau : JsVal;
  type : JsVal
}.

Record AlarmEvent := { alarm_timestamp : string; alarm_event : JsVal }.
Record DoorEvent := { door_timestamp : string; door_event : JsVal }.

Record state := {
  currentInventorySubject : JsVal;
  historySubject : list InventoryTransaction;
  alarmHistorySubject : list AlarmEvent;
  doorHistorySubject : list DoorEvent;
  isLoadingSubject : bool
}.

Definition init : state :=
  {| currentInventorySubject := JNum 0;
     historySubject := [];
     alarmHistorySubject := [];
     doorHistorySubject := [];
     isLoadingSubject := true |}.

Section Listen.
Context `{DateParse}.

(** [(a, b) => new Date(key b).getTime() - new Date(key a).getTime()]. *)
Definition newest_first {A : Type} (key : A -> string) (a b : A) : number :=
  (Date_parse (key b) - Date_parse (key a))%float.

(** The alarm events of [data.history.alarm], before and after the sort. *)
Definition alarm_entries (alarm : JsVal) : list AlarmEvent :=
  map (fun timestamp =>
         {| alarm_timestamp := timestamp;
            alarm_event := or_else (get_opt (get alarm timestamp) "event") (JStr "ALARM") |})
      (keys alarm).

Definition alarmEvents (alarm : JsVal) : list AlarmEvent :=
  sort (newest_first alarm_timestamp) (alarm_entries alarm).

(** The door events of [data.history.door]. *)
Definition door_entries (door : JsVal) : list DoorEvent :=
  map (fun timestamp =>
         {| door_timestamp := timestamp;
            door_event := or_else (get_opt (get door timestamp) "event") (JStr "OPEN") |})
      (keys door).

Definition doorEvents (door : JsVal) : list DoorEvent :=
  sort (newest_first door_timestamp) (door_entries door).

(** The body of the [forEach] over [Object.keys(data.history)]: the
    transaction pushed for [key], if any. *)
Definition transaction_of (history : JsVal) (key : string) : option InventoryTransaction :=
  let transaction := get history key in
  if negb (String.eqb key "alarm") && negb (String.eqb key "door")
     && bool_decide (is_Some (get_opt transaction "amount"))
  then Some {| date := key;
               amount := or_else (get_opt transaction "amount") (JNum 0);
               ton_sau := or_else (get_opt transaction "ton_sau") (JNum 0);
               type := or_else (get_opt transaction "type") (JStr "NHAP") |}
  else None.

Definition transaction_entries (history : JsVal) : list InventoryTransaction :=
  omap (transaction_of history) (keys history).

Definition transactions (history : JsVal) : list InventoryTransaction :=
  sort (newest_first date) (transaction_entries history).

(** The [if (data.history) { ... }] block. *)
Definition reconcile (history : JsVal) (s : state) : state :=
  let alarmHistory :=
    match get history "alarm" with
    | Some alarm => if truthy alarm then alarmEvents alarm else alarmHistorySubject s
    | None => alarmHistorySubject s
    end in
  let doorHistory :=
    match get history "door" with
    | Some door => if truthy door then doorEvents door else doorHistorySubject s
    | None => doorHistorySubject s
    end in
  {| currentInventorySubject := currentInventorySubject s;
     historySubject := transactions history;
     alarmHistorySubject := alarmHistory;
     doorHistorySubject := doorHistory;
     isLoadingSubject := isLoadingSubject s |}.

(** The value callback of [listenToWarehouseData]. *)
Definition onWarehouseValue (snapshot : DataSnapshot) (s : state) : state :=
  match snapshot with
  | Some data =>
      let currentInventory := or_else (get data "quantity") (JNum 0) in
      let s1 :=
        {| currentInventorySubject := currentInventory;
           historySubject := historySubject s;
           alarmHistorySubject := alarmHistorySubject s;
           doorHistorySubject := doorHistorySubject s;
           isLoadingSubject := isLoadingSubject s |} in
      let s2 :=
        match get data "history" with
        | Some history => if truthy history then reconcile history s1 else s1
        | None => s1
        end in
      {| currentInventorySubject := currentInventorySubject s2;
         historySubject := historySubject s2;
         alarmHistorySubject := alarmHistorySubject s2;
         doorHistorySubject := doorHistorySubject s2;
         isLoadingSubject := false |}
  | None => s
  end.

End Listen.

Section Format.
Context `{DateFormat}.

(** An element of a destructured array in a numeric position: a missing
    element is [undefined], which [ToNumber] turns into NaN. *)
Definition component (parts : list number) (i : nat) : number := nth i parts nan.

(** [new Date(year, monthIndex, day, hour, minute, second).getTime()]: NaN as
    soon as one argument is not finite. *)
Definition newDate (year monthIndex day hour minute second : number) : number :=
  if forallb is_finite [year; monthIndex; day; hour; minute; second]
  then Date_local year monthIndex day hour minute second
  else nan.

(** [date.toLocaleString('vi-VN', {...})]: never throws. *)
Definition toLocaleString (time_value : number) : string :=
  if is_nan time_value then "Invalid Date" else format_viVN time_value.

(** [formatDate(dateString)].  The only statement of the [try] block that can
    throw is [timePart.split('-')], when [timePart] is undefined. *)
Definition formatDate (dateString : string) : string :=
  match split "_"%char dateString with
  | datePart :: timePart :: _ =>
      let ymd := map Number (split "-"%char datePart) in
      let hms := map Number (split "-"%char timePart) in
      let date :=
        newDate (component ymd 0) (component ymd 1 - 1)%float (component ymd 2)
                (component hms 0) (component hms 1) (component hms 2) in
      toLocaleString date
  | _ => dateString
  end.

Definition formatTimestamp (timestamp : string) : string := formatDate timestamp.

End Format.

Definition onWarehouseError (s : state) : state :=
  {| currentInventorySubject := currentInventorySubject s;
     historySubject := historySubject s;
     alarmHistorySubject := alarmHistorySubject s;
     doorHistorySubject := doorHistorySubject s;
     isLoadingSubject := false |}.

Definition getHistory (s : state) := historySubject s.
Definition getAlarmHistory (s : state) := alarmHistorySubject s.
Definition getDoorHistory (s : state) := doorHistorySubject s.

End WarehouseService.

(** ** dashboard.component.ts: the theft alert *)

Module DashboardComponent.

(** Time in milliseconds. *)
Abbreviation time := Z (only parsing).

Record state := {
  (** [intruderAlert$.value] *)
  intruderAlert : bool;
  alertTime : option time;
  (** every value [intruderAlert$.next] emitted, with the time, oldest first *)
  emitted : list (time * bool);
  (** the pending [setTimeout] callbacks by due time, in the order they were
      set; each callback is [() => intruderAlert$.next(false)] *)
  timers : list time
}.

Definition init : state :=
  {| intruderAlert := false; alertTime := None; emitted := []; timers := [] |}.

Definition delay : Z := 8000.

(** [intruderAlert$.next(v)] at time [now]. *)
Definition next (now : time) (v : bool) (s : state) : state :=
  {| intruderAlert := v;
     alertTime := alertTime s;
     emitted := emitted s ++ [(now, v)];
     timers := timers s |}.

(** [triggerTheftAlert()] at time [now]. *)
Definition triggerTheftAlert (now : time) (s : state) : state :=
  let s1 :=
    {| intruderAlert := intruderAlert s;
       alertTime := Some now;
       emitted := emitted s;
       timers := timers s |} in
  let s2 := next now true s1 in
  {| intruderAlert := intruderAlert s2;
     alertTime := alertTime s2;
     emitted := emitted s2;
     timers := timers s2 ++ [(now + delay)%Z] |}.

Definition dismissAlert (now : time) (s : state) : state := next now false s.

(** The earliest pending timer (the first set, among equals). *)
Fixpoint earliest (ts : list time) : option time :=
  match ts with
  | [] => None
  | t :: ts' =>
      match earliest ts' with
      | Some t' => if (t' <? t)%Z then Some t' else Some t
      | None => Some t
      end
  end.

Fixpoint remove_first (t : time) (ts : list time) : list time :=
  match ts with
  | [] => []
  | t' :: ts' => if (t' =? t)%Z then ts' else t' :: remove_first t ts'
  end.

(** The event loop up to time [now]: the timers due by then fire in order of
    due time, each running its callback at its due time.  A callback sets no
    timer, so [fuel] = the number of pending timers is enough. *)
Fixpoint run_timers (fuel : nat) (now : time) (s : state) : state :=
  match fuel with
  | O => s
  | S fuel' =>
      match earliest (timers s) with
      | Some t =>
          if (t <=? now)%Z then
            let s1 :=
              {| intruderAlert := intruderAlert s;
                 alertTime := alertTime s;
                 emitted := emitted s;
                 timers := remove_first t (timers s) |} in
            run_timers fuel' now (next t false s1)
          else s
      | None => s
      end
  end.

Definition advance (now : time) (s : state) : state :=
  run_timers (length (timers s)) now s.


(** The times at which the alert was cleared. *)
Definition cleared_at (s : state) : list time :=
  map fst (filter (fun e => negb e.2) (emitted s)).

End DashboardComponent.

(** ** Vocabulary of the statements *)

Module Spec.
Import Js.

(** [lo <= x <= hi] on numbers, both bounds inclusive. *)
Definition within (lo x hi : number) : Prop :=
  (lo <=? x)%float = true /\ (x <=? hi)%float = true.

(** The last [n] elements of a list: all of it when it is shorter. *)
Definition last_n {A : Type} (n : nat) (l : list A) : list A :=
  drop (length l - n) l.

(** What one [addReading] does to the contents of the current array. *)
Definition trim {A : Type} (a : list A) : list A :=
  if (SensorHistoryService.maxReadings <? length a)%nat then drop 1 a else a.

(** The elements of an array refer to allocated objects. *)
Definition allocated (o : gmap SensorHistoryService.obj SensorHistoryService.SensorReading)
    (a : list SensorHistoryService.obj) : Prop :=
  Forall (fun r => is_Some (o !! r)) a.

(** The subject refers to an allocated array of allocated objects. *)
Definition wf (s : SensorHistoryService.state) : Prop :=
  exists a,
    SensorHistoryService.store s !! SensorHistoryService.readingsSubject s = Some a /\
    allocated (SensorHistoryService.objects s) a.

(** Every array of the store is within the capacity. *)
Definition bounded (s : SensorHistoryService.state) : Prop :=
  forall l a, SensorHistoryService.store s !! l = Some a ->
              length a <= SensorHistoryService.maxReadings.

(** A number that is not NaN. *)
Definition notnan (x : number) : Prop := is_nan x = false.

(** The order of binary64 values read on integers: a key per value of the
    specification format (both zeros share one; a negative value is ordered by
    the opposite of its exponent and mantissa), compared lexicographically. *)
Definition rank (f : spec_float) : Z * Z * Z :=
  match f with
  | S754_nan => (0, 0, 0)
  | S754_zero _ => (0, 0, 0)
  | S754_infinity true => (-2, 0, 0)
  | S754_infinity false => (2, 0, 0)
  | S754_finite true m e => (-1, - e, Z.neg m)
  | S754_finite false m e => (1, e, Z.pos m)
  end%Z.

Definition key (x : number) : Z * Z * Z := rank (Prim2SF x).

Definition lex_lt (a b : Z * Z * Z) : Prop :=
  (a.1.1 < b.1.1 \/ (a.1.1 = b.1.1 /\ (a.1.2 < b.1.2 \/ (a.1.2 = b.1.2 /\ a.2 < b.2))))%Z.

Definition lex_le (a b : Z * Z * Z) : Prop := lex_lt a b \/ a = b.

Definition lex_compare (a b : Z * Z * Z) : comparison :=
  match (a.1.1 ?= b.1.1)%Z with
  | Eq => match (a.1.2 ?= b.1.2)%Z with
          | Eq => (a.2 ?= b.2)%Z
          | c => c
          end
  | c => c
  end.

(** Sample windows: three readings of 0.1 degrees and 50 percent, and the
    single reading (20, 50). *)
Definition three_tenths : SensorHistoryService.state :=
  SensorHistoryService.addReadings
    [(0.1, 50, 1); (0.1, 50, 2); (0.1, 50, 3)]%float SensorHistoryService.init.

Definition one_reading : SensorHistoryService.state :=
  SensorHistoryService.addReading 20 50 1 SensorHistoryService.init.

(** The ledger of the specification's example, and a ledger of two
    transactions in the order the database lists its keys (ascending). *)
Definition example_ledger : JsVal :=
  JObj [("alarm", JObj [("2026-01-05_16-37-41", JObj [("event", JStr "ALARM")])]);
        ("door", JObj [("2026-01-05_16-30-00", JObj [("event", JStr "OPEN")])]);
        ("2025-12-20_20-11-20",
         JObj [("amount", JNum 50); ("ton_sau", JNum 150); ("type", JStr "NHAP")])].

Definition two_transactions : JsVal :=
  JObj [("2025-12-20_20-11-20",
         JObj [("amount", JNum 50); ("ton_sau", JNum 150); ("type", JStr "NHAP")]);
        ("2025-12-21_09-30-00",
         JObj [("amount", JNum 20); ("ton_sau", JNum 130); ("type", JStr "XUAT")])].

(** The same two transactions under keys the engine's parser accepts. *)
Definition two_transactions_utc : JsVal :=
  JObj [("2025-12-20T20:11:20Z",
         JObj [("amount", JNum 50); ("ton_sau", JNum 150); ("type", JStr "NHAP")]);
        ("2025-12-21T09:30:00Z",
         JObj [("amount", JNum 20); ("ton_sau", JNum 130); ("type", JStr "XUAT")])].

End Spec.

From stdpp Require Import sorting.

(** ** iot.service.ts: the listeners as a sequence of callbacks *)

Module IoTListener.
Import Js IoTService.

(** What the two listeners of [listenToSensorData] receive. *)
Inductive event :=
| SensorValue (snapshot : DataSnapshot) (date now : number)
| SensorError
| MotionValue (snapshot : DataSnapshot)
| MotionError.

Section Listen.
Context `{ParseFloat}.

Definition step (s : state) (e : event) : state :=
  match e with
  | SensorValue snapshot date now => onSensorValue snapshot date now s
  | SensorError => onSensorError s
  | MotionValue snapshot => onMotionValue snapshot s
  | MotionError => onMotionError s
  end.

Definition run (es : list event) (s : state) : state := fold_left step es s.

(** The reading an event pushes into the rolling window, if any. *)
Definition reading_pushed (e : event) : option (number * number * number) :=
  match e with
  | SensorValue (Some data) _ now =>
      Some (or_num (parseFloat (get data "temperature")) 0,
            or_num (parseFloat (get data "humidity")) 0, now)
  | _ => None
  end.

End Listen.

(** The callbacks of the motion listener. *)
Definition is_motion (e : event) : bool :=
  match e with
  | MotionValue _ | MotionError => true
  | SensorValue _ _ _ | SensorError => false
  end.

(** What the sensor listener publishes, and what the motion listener does. *)
Definition sensor_part (s : state)
  : number * number * Status * number * bool * SensorHistoryService.state :=
  (temperatureSubject s, humiditySubject s, statusSubject s,
   lastUpdatedSubject s, isLoadingSubject s, sensorHistory s).

Definition motion_part (s : state) : JsVal := motionSubject s.

(** The events that leave the loading flag as it is. *)
Definition quiet (e : event) : bool :=
  match e with
  | SensorValue (Some _) _ _ | SensorError => false
  | _ => true
  end.

(** The published status is the status of the published reading. *)
Definition consistent (s : state) : Prop :=
  getStatus s = status_of (getTemperature s) (getHumidity s).

End IoTListener.

(** ** dashboard.component.ts: gauges, colours and labels *)

Module DashboardView.
Import Js.

Definition getTemperatureGauge (temp : number) : number :=
  Math_max [0%float; Math_min [100%float; (temp / 50 * 100)%float]].

Definition getHumidityGauge (humidity : number) : number :=
  Math_max [0%float; Math_min [100%float; humidity]].

Definition getTemperatureFillColor (temp : number) : string :=
  if lt temp 10 then "#2196F3"
  else if lt temp 16 then "#4CAF50"
  else if le temp 26 then "#4CAF50"
  else if le temp 30 then "#FFC107"
  else if le temp 35 then "#FF9800"
  else "#F44336".

Definition getHumidityFillColor (humidity : number) : string :=
  if lt humidity 20 then "#FF6F00"
  else if lt humidity 30 then "#FFC107"
  else if le humidity 60 then "#4CAF50"
  else if le humidity 70 then "#FFC107"
  else "#F44336".

Definition getTemperatureStatus (temp : number) : string :=
  if ge temp 16 && le temp 26 then "optimal"
  else if ge temp 12 && le temp 30 then "warning"
  else "critical".

Definition getTemperatureStatusText (temp : number) : string :=
  if ge temp 16 && le temp 26 then "Khoảng Tối Ưu"
  else if ge temp 12 && le temp 30 then "Khoảng Cảnh Báo"
  else "Khoảng Nguy Hiểm".

Definition getHumidityStatus (humidity : number) : string :=
  if ge humidity 30 && le humidity 60 then "optimal"
  else if ge humidity 20 && le humidity 70 then "warning"
  else "critical".

Definition getHumidityStatusText (humidity : number) : string :=
  if ge humidity 30 && le humidity 60 then "Khoảng Tối Ưu"
  else if ge humidity 20 && le humidity 70 then "Khoảng Cảnh Báo"
  else "Khoảng Nguy Hiểm".

Definition getStatusText (status : string) : string :=
  if String.eqb status "optimal" then "Tối Ưu"
  else if String.eqb status "warning" then "Cảnh Báo"
  else if String.eqb status "critical" then "Nguy Hiểm"
  else "Không Xác Định".

(** The string a status of the service is. *)
Definition status_name (st : IoTService.Status) : string :=
  match st with
  | IoTService.optimal => "optimal"
  | IoTService.warning => "warning"
  | IoTService.critical => "critical"
  end.

(** The more severe of two statuses. *)
Definition worst (a b : string) : string :=
  if String.eqb a "critical" || String.eqb b "critical" then "critical"
  else if String.eqb a "warning" || String.eqb b "warning" then "warning"
  else "optimal".

(** [checkMotionAlert]: the subscriber of [motion$], called at time [now]. *)
Definition onMotion (motion : JsVal) (now : Z) (s : DashboardComponent.state)
  : DashboardComponent.state :=
  if truthy motion then DashboardComponent.triggerTheftAlert now s else s.

(** The motion values the subscriber receives, each with its time, oldest
    first; the timers due by the time of a value have fired before it. *)
Definition motions (es : list (Z * JsVal)) (s : DashboardComponent.state)
  : DashboardComponent.state :=
  fold_left (fun s e => onMotion e.2 e.1 (DashboardComponent.advance e.1 s)) es s.

(** The times at which the alert was raised. *)
Definition raised_at (s : DashboardComponent.state) : list Z :=
  map fst (filter (fun e : Z * bool => e.2) (DashboardComponent.emitted s)).

(** The state after the alerts raised at the times [A], seen at time [c]: the
    timers still pending and the clearings so far are the due times after and
    up to [c], and the flag is off once no timer is pending. *)
Definition alert_inv (A : list Z) (c : Z) (s : DashboardComponent.state) : Prop :=
  DashboardComponent.timers s =
    filter (fun d => c < d)%Z (map (fun t => t + DashboardComponent.delay)%Z A) /\
  DashboardComponent.cleared_at s =
    filter (fun d => d <= c)%Z (map (fun t => t + DashboardComponent.delay)%Z A) /\
  raised_at s = A /\
  (DashboardComponent.timers s = [] -> DashboardComponent.intruderAlert s = false).

(** The times of the motion values that raise the alert. *)
Definition alerts (es : list (Z * JsVal)) : list Z :=
  map fst (filter (fun e => truthy e.2) es).

End DashboardView.

(** ** auth.service.ts and auth.guard.ts *)

Module AuthService.
Import Js.

(** [handleError(error)]: the message the returned [Error] is made of. *)
Definition handleError (error : JsVal) : JsVal :=
  match get error "code" with
  | Some code =>
      if truthy code then
        match code with
        | JStr c =>
            if String.eqb c "auth/email-already-in-use" then JStr "Email is already in use"
            else if String.eqb c "auth/invalid-email" then JStr "Invalid email address"
            else if String.eqb c "auth/weak-password"
                 then JStr "Password is too weak (minimum 6 characters)"
            else if String.eqb c "auth/user-not-found" then JStr "User not found"
            else if String.eqb c "auth/wrong-password" then JStr "Invalid email or password"
            else if String.eqb c "auth/operation-not-allowed" then JStr "Operation not allowed"
            else or_else (get error "message") (JStr "An error occurred")
        | _ => or_else (get error "message") (JStr "An error occurred")
        end
      else JStr "An error occurred"
  | None => JStr "An error occurred"
  end.

(** [displayName || email.split('@')[0]], the display name [register]
    stores; [displayName] is optional. *)
Definition registered_displayName (displayName : option string) (email : string) : string :=
  let local_part := hd EmptyString (split "@" email) in
  match displayName with
  | Some name => if String.eqb name "" then local_part else name
  | None => local_part
  end.

(** The codes [handleError] has a message for. *)
Definition known_codes : list string :=
  ["auth/email-already-in-use"; "auth/invalid-email"; "auth/weak-password";
   "auth/user-not-found"; "auth/wrong-password"; "auth/operation-not-allowed"].

End AuthService.

Module AuthGuard.

(** [router.navigate(commands, { queryParams: { returnUrl } })]. *)
Record Navigation := { commands : list string; returnUrl : option string }.

Section Guards.
(** The signed-in user, an object. *)
Context {User : Type}.

(** The value the guard's observable emits, and the navigation it starts. *)
Definition authGuard (currentUser : option User) (url : string) : bool * option Navigation :=
  match currentUser with
  | Some _ => (true, None)
  | None => (false, Some {| commands := ["/login"]; returnUrl := Some url |})
  end.

Definition noAuthGuard (currentUser : option User) : bool * option Navigation :=
  match currentUser with
  | None => (true, None)
  | Some _ => (false, Some {| commands := ["/dashboard"]; returnUrl := None |})
  end.

End Guards.

End AuthGuard.

(** ** warehouse.service.ts: labels and colours *)

Module WarehouseLabels.
Import Js.

Definition is_string (v : JsVal) (s : string) : bool :=
  match v with JStr s' => String.eqb s' s | _ => false end.

Definition getTransactionTypeLabel (type : JsVal) : string :=
  if is_string type "NHAP" then "Nhập Hàng" else "Xuất Hàng".

Definition getTransactionTypeColor (type : JsVal) : string :=
  if is_string type "NHAP" then "#4CAF50" else "#FF6F00".

Definition getEventLabel (event : JsVal) : JsVal :=
  if is_string event "ALARM" then JStr "Cảnh Báo"
  else if is_string event "OPEN" then JStr "Mở Cửa"
  else event.

Definition getEventColor (event : JsVal) : string :=
  if is_string event "ALARM" then "#F44336"
  else if is_string event "OPEN" then "#2196F3"
  else "#9E9E9E".

(** A key of the ledger made of six components:
    [year-month-day_hour-minute-second]. *)
Definition ledger_key (year month day hour minute second : string) : string :=
  String.append year (String "-" (String.append month (String "-"
    (String.append day (String "_" (String.append hour (String "-"
      (String.append minute (String "-" second))))))))).

(** A string without [-] and without [_]. *)
Definition plain (s : string) : Prop :=
  forall a, In a (String.list_ascii_of_string s) -> a <> "-"%char /\ a <> "_"%char.

End WarehouseLabels.

(** ** A stand-in for the engine's date constructor and formatter, for the
    examples: the time zone is UTC, [Number] reads unsigned decimal integers
    (and the empty string as 0), and a date is rendered as
    [HH:mm:ss DD/MM/YYYY]. *)

Module SampleFormat.
Import Js SampleEngine.

Definition sample_Number (s : string) : number :=
  match digits_from 0 s with
  | Some z => number_of_Z z
  | None => nan
  end.

(** A finite number truncated to an integer. *)
Definition trunc (x : number) : Z :=
  match Prim2SF x with
  | S754_finite sign m e =>
      let v := Z.shiftl (Z.pos m) e in if sign then (- v)%Z else v
  | _ => 0%Z
  end.

Definition sample_Date_local (year monthIndex day hour minute second : number) : number :=
  let months := (trunc year * 12 + trunc monthIndex)%Z in
  let days := (days_from_civil (months / 12) (months mod 12 + 1) 1 + trunc day - 1)%Z in
  number_of_Z
    ((((days * 24 + trunc hour) * 60 + trunc minute) * 60 + trunc second) * 1000)%Z.

(** The day of the proleptic Gregorian calendar a number of days after
    1970-01-01: year, month, day. *)
Definition civil_from_days (days : Z) : Z * Z * Z :=
  let z := (days + 719468)%Z in
  let era := (z / 146097)%Z in
  let doe := (z - era * 146097)%Z in
  let yoe := ((doe - doe / 1460 + doe / 36524 - doe / 146096) / 365)%Z in
  let doy := (doe - (365 * yoe + yoe / 4 - yoe / 100))%Z in
  let mp := ((5 * doy + 2) / 153)%Z in
  let d := (doy - (153 * mp + 2) / 5 + 1)%Z in
  let m := (if (mp <? 10)%Z then mp + 3 else mp - 9)%Z in
  let y := (yoe + era * 400 + (if (m <=? 2)%Z then 1 else 0))%Z in
  (y, m, d).

Definition two_digits (n : Z) : string :=
  if (n <? 10)%Z then String.append "0" (pretty n) else pretty n.

Definition sample_format (time_value : number) : string :=
  let ms := trunc time_value in
  let seconds := (ms / 1000)%Z in
  let days := (seconds / 86400)%Z in
  let rest := (seconds mod 86400)%Z in
  let '(y, m, d) := civil_from_days days in
  String.append (two_digits (rest / 3600)) (String.append ":"
    (String.append (two_digits (rest mod 3600 / 60)) (String.append ":"
      (String.append (two_digits (rest mod 60)) (String.append " "
        (String.append (two_digits d) (String.append "/"
          (String.append (two_digits m) (String.append "/" (pretty y)))))))))).

#[export] Instance sample_DateFormat : DateFormat :=
  {| Number := sample_Number;
     Date_local := sample_Date_local;
     format_viVN := sample_format |}.

End SampleFormat.

(* ===================================================================== *)
(** * Part II: properties                                                 *)
(* ===================================================================== *)

(** ** The status classifier and the telemetry aggregator *)

Module IoTFacts.
Import Js Spec IoTService.

Lemma within_bool lo x hi :
  within lo x hi <-> ge x lo && le x hi = true.
Proof.
  unfold within, ge, le. rewrite andb_true_iff. reflexivity.
Qed.

Lemma bands_bool lo1 x hi1 lo2 y hi2 :
  within lo1 x hi1 /\ within lo2 y hi2 <->
  (ge x lo1 && le x hi1) && (ge y lo2 && le y hi2) = true.
Proof.
  rewrite andb_true_iff, <- !within_bool. reflexivity.
Qed.

(** The three cases of [status_of], read off its definition once. *)
Lemma status_of_cases temperature humidity :
  (status_of temperature humidity = optimal <->
     within 16 temperature 26 /\ within 30 humidity 60) /\
  (status_of temperature humidity = warning <->
     ~ (within 16 temperature 26 /\ within 30 humidity 60) /\
     within 12 temperature 30 /\ within 20 humidity 70) /\
  (status_of temperature humidity = critical <->
     ~ (within 16 temperature 26 /\ within 30 humidity 60) /\
     ~ (within 12 temperature 30 /\ within 20 humidity 70)).
Proof.
  rewrite !bands_bool. unfold status_of.
  generalize ((ge temperature 16 && le temperature 26) && (ge humidity 30 && le humidity 60)).
  generalize ((ge temperature 12 && le temperature 30) && (ge humidity 20 && le humidity 70)).
  intros [] []; repeat split; intros; try congruence; try tauto;
    try (intros ?; congruence).
Qed.

(** C2.  [status_of] is a total function of the pair with the precedence
    Optimal, then Warning, then Critical, every bound inclusive:
    Optimal iff 16 <= temperature <= 26 and 30 <= humidity <= 60; Warning iff
    not so and 12 <= temperature <= 30 and 20 <= humidity <= 70; Critical
    otherwise.  [updateStatus] publishes exactly that status and touches
    nothing else.  The five sample readings classify as stated. *)
Theorem C2_status_classifier :
  (forall temperature humidity,
      (status_of temperature humidity = optimal <->
         within 16 temperature 26 /\ within 30 humidity 60) /\
      (status_of temperature humidity = warning <->
         ~ (within 16 temperature 26 /\ within 30 humidity 60) /\
         within 12 temperature 30 /\ within 20 humidity 70) /\
      (status_of temperature humidity = critical <->
         ~ (within 16 temperature 26 /\ within 30 humidity 60) /\
         ~ (within 12 temperature 30 /\ within 20 humidity 70))) /\
  (forall temperature humidity s,
      getStatus (updateStatus temperature humidity s) = status_of temperature humidity /\
      getTemperature (updateStatus temperature humidity s) = getTemperature s /\
      getHumidity (updateStatus temperature humidity s) = getHumidity s /\
      getMotion (updateStatus temperature humidity s) = getMotion s /\
      lastUpdatedSubject (updateStatus temperature humidity s) = lastUpdatedSubject s /\
      isLoadingSubject (updateStatus temperature humidity s) = isLoadingSubject s /\
      sensorHistory (updateStatus temperature humidity s) = sensorHistory s) /\
  status_of 20 45 = optimal /\
  status_of 29 65 = warning /\
  status_of 5 90 = critical /\
  status_of 26 60 = optimal /\
  status_of 26.01 60 = warning.
Proof.
  split; [exact status_of_cases|].
  split; [intros; repeat split|].
  repeat split; vm_compute; reflexivity.
Qed.

Section Aggregator.
Context `{ParseFloat}.

(** C4.  After a successful ingest, the error callback changes the loading
    flag to false and nothing else: temperature, humidity, status and
    last-updated keep the values of the ingest (the coerced reading, its
    status, its date), and so do the motion flag and the history. *)
Theorem C4_error_keeps_last_known_good
    (data : JsVal) (date now : number) (s : state) :
  let ingested := onSensorValue (Some data) date now s in
  let failed := onSensorError ingested in
  let temperature := or_num (parseFloat (get data "temperature")) 0 in
  let humidity := or_num (parseFloat (get data "humidity")) 0 in
  (getTemperature failed = getTemperature ingested /\ getTemperature ingested = temperature) /\
  (getHumidity failed = getHumidity ingested /\ getHumidity ingested = humidity) /\
  (getStatus failed = getStatus ingested /\
   getStatus ingested = status_of temperature humidity) /\
  (lastUpdatedSubject failed = lastUpdatedSubject ingested /\
   lastUpdatedSubject ingested = date) /\
  getMotion failed = getMotion ingested /\
  sensorHistory failed = sensorHistory ingested /\
  isLoadingSubject failed = false /\
  (forall s', isLoadingSubject s' = false -> onSensorError s' = s').
Proof.
  intros ingested failed temperature humidity.
  split; [split; reflexivity|].
  split; [split; reflexivity|].
  split; [split; reflexivity|].
  split; [split; reflexivity|].
  split; [reflexivity|].
  split; [reflexivity|].
  split; [reflexivity|].
  intros [t h m st lu ld sh] E. unfold onSensorError. cbn [isLoadingSubject] in E.
  rewrite <- E. reflexivity.
Qed.

(** C10.  Before the first snapshot every accessor yields its default
    (temperature 0, humidity 0, motion false, status optimal, loading true),
    and a snapshot that does not exist leaves the whole state as it is, on the
    sensor path and on the motion path. *)
Theorem C10_defaults_and_missing_snapshot (t0 : number) :
  getTemperature (init t0) = 0%float /\
  getHumidity (init t0) = 0%float /\
  getMotion (init t0) = JBool false /\
  getStatus (init t0) = optimal /\
  isLoadingSubject (init t0) = true /\
  (forall date now s, onSensorValue None date now s = s) /\
  (forall s, onMotionValue None s = s) /\
  (forall date now, onMotionValue None (onSensorValue None date now (init t0)) = init t0).
Proof.
  repeat (split; [reflexivity|]). reflexivity.
Qed.

(** An ingest pushes the coerced reading into the rolling window, and the
    coerced values are never NaN: a reading that does not parse is 0. *)
Theorem ingest_feeds_the_window (data : JsVal) (date now : number) (s : state) :
  let temperature := or_num (parseFloat (get data "temperature")) 0 in
  let humidity := or_num (parseFloat (get data "humidity")) 0 in
  sensorHistory (onSensorValue (Some data) date now s) =
    SensorHistoryService.addReading temperature humidity now (sensorHistory s) /\
  is_nan temperature = false /\ is_nan humidity = false /\
  (is_nan (parseFloat (get data "temperature")) = true -> temperature = 0%float) /\
  (is_nan (parseFloat (get data "humidity")) = true -> humidity = 0%float).
Proof.
  assert (N : forall x, is_nan (or_num x 0) = false).
  { intros x. unfold or_num, truthy_num.
    destruct (is_nan x) eqn:E; cbn [orb negb]; [reflexivity|].
    by destruct (is_zero x). }
  assert (Z : forall x, is_nan x = true -> or_num x 0 = 0%float).
  { intros x E. unfold or_num, truthy_num. by rewrite E. }
  cbv zeta. split; [reflexivity|]. auto.
Qed.

End Aggregator.

End IoTFacts.

(** ** The order of JavaScript numbers *)

Module NumberOrder.
Import Js Spec.

Lemma lex_compare_spec a b :
  match lex_compare a b with
  | Lt => lex_lt a b
  | Eq => a = b
  | Gt => lex_lt b a
  end.
Proof.
  destruct a as [[a1 a2] a3], b as [[b1 b2] b3]. unfold lex_compare, lex_lt. cbn.
  destruct (Z.compare_spec a1 b1); [|lia..].
  destruct (Z.compare_spec a2 b2); [|lia..].
  destruct (Z.compare_spec a3 b3); [|lia..].
  by subst.
Qed.

Lemma lex_lt_irrefl a : ~ lex_lt a a.
Proof. unfold lex_lt. lia. Qed.

Lemma lex_lt_trans a b c : lex_lt a b -> lex_lt b c -> lex_lt a c.
Proof. unfold lex_lt. lia. Qed.

Lemma lex_le_trans a b c : lex_le a b -> lex_le b c -> lex_le a c.
Proof.
  intros [H1| ->] [H2| ->]; unfold lex_le; eauto using lex_lt_trans.
Qed.

Lemma lex_total a b : lex_lt a b \/ lex_le b a.
Proof.
  pose proof (lex_compare_spec a b) as S.
  destruct (lex_compare a b); unfold lex_le; subst; auto.
Qed.

Lemma lex_compare_Lt a b : lex_compare a b = Lt <-> lex_lt a b.
Proof.
  pose proof (lex_compare_spec a b) as S. split.
  - intros E. by rewrite E in S.
  - intros L. destruct (lex_compare a b); [subst; by apply lex_lt_irrefl in L|done|].
    exfalso. eapply lex_lt_irrefl, lex_lt_trans; eauto.
Qed.

Lemma lex_compare_Eq a b : lex_compare a b = Eq <-> a = b.
Proof.
  pose proof (lex_compare_spec a b) as S. split.
  - intros E. by rewrite E in S.
  - intros ->. destruct (lex_compare b b); [done|by apply lex_lt_irrefl in S..].
Qed.

Lemma lex_compare_le a b : lex_compare a b <> Gt <-> lex_le a b.
Proof.
  pose proof (lex_compare_spec a b) as S. unfold lex_le. split.
  - destruct (lex_compare a b); auto. congruence.
  - intros [L| ->] E; rewrite E in S.
    + eapply lex_lt_irrefl, lex_lt_trans; eauto.
    + by apply lex_lt_irrefl in S.
Qed.

(** The comparison of the specification format is the comparison of keys. *)
Lemma SFcompare_rank f1 f2 :
  f1 <> S754_nan -> f2 <> S754_nan ->
  SFcompare f1 f2 = Some (lex_compare (rank f1) (rank f2)).
Proof.
  intros N1 N2.
  destruct f1 as [s1|s1| |s1 m1 e1], f2 as [s2|s2| |s2 m2 e2]; try congruence;
    try destruct s1; try destruct s2; try reflexivity.
  cbn. unfold lex_compare. cbn [fst snd].
  rewrite Z.compare_opp, (Z.compare_antisym e1 e2).
  destruct (e1 ?= e2)%Z; reflexivity.
Qed.

Lemma notnan_spec x : notnan x <-> Prim2SF x <> S754_nan.
Proof.
  unfold notnan, is_nan. rewrite FloatAxioms.eqb_spec. unfold SFeqb. split.
  - intros E N. rewrite N in E. done.
  - intros N. rewrite SFcompare_rank by done.
    by rewrite (proj2 (lex_compare_Eq _ _) eq_refl).
Qed.

Lemma compare_notnan x y c :
  SFcompare (Prim2SF x) (Prim2SF y) = Some c -> notnan x /\ notnan y.
Proof.
  rewrite !notnan_spec.
  destruct (Prim2SF x), (Prim2SF y); cbn; intros E; split; congruence.
Qed.

(** The three comparisons of numbers follow one pattern: unfold the
    comparison of the specification format, read it on keys by
    [SFcompare_rank], and conclude by the lemma [lem] on [lex_compare]. *)
Ltac by_keys lem :=
  split;
  [ match goal with
    | |- context [SFcompare ?X ?Y] =>
        let c := fresh "c" in
        let E := fresh "E" in
        destruct (SFcompare X Y) as [c|] eqn:E; [|done];
        destruct (compare_notnan _ _ _ E);
        intros ?; split; [done|split; [done|]];
        rewrite SFcompare_rank in E by (by apply notnan_spec);
        apply lem; injection E as ->; by destruct c
    end
  | let L := fresh "L" in
    intros (? & ? & L);
    rewrite SFcompare_rank by (by apply notnan_spec);
    apply lem in L;
    first [ by rewrite L | by destruct (lex_compare _ _) ] ].

Lemma leb_iff x y :
  (x <=? y)%float = true <-> notnan x /\ notnan y /\ lex_le (key x) (key y).
Proof.
  rewrite FloatAxioms.leb_spec. unfold SFleb, key. by_keys lex_compare_le.
Qed.

Lemma ltb_iff x y :
  (x <? y)%float = true <-> notnan x /\ notnan y /\ lex_lt (key x) (key y).
Proof.
  rewrite FloatAxioms.ltb_spec. unfold SFltb, key. by_keys lex_compare_Lt.
Qed.

Lemma eqb_iff x y :
  (x =? y)%float = true <-> notnan x /\ notnan y /\ key x = key y.
Proof.
  rewrite FloatAxioms.eqb_spec. unfold SFeqb, key. by_keys lex_compare_Eq.
Qed.

Lemma le_refl x : notnan x -> le x x = true.
Proof. intros N. apply leb_iff. unfold lex_le. auto. Qed.

Lemma le_trans x y z : le x y = true -> le y z = true -> le x z = true.
Proof.
  unfold le. rewrite !leb_iff. intros (? & ? & ?) (? & ? & ?).
  eauto using lex_le_trans.
Qed.

Lemma not_lt_le x y : notnan x -> notnan y -> lt x y = false -> le y x = true.
Proof.
  unfold lt, le. intros N1 N2 E. apply leb_iff.
  split; [done|split; [done|]].
  destruct (lex_total (key x) (key y)) as [L|L]; [|done].
  assert ((x <? y)%float = true) by (by apply ltb_iff). congruence.
Qed.

Lemma lt_le x y : lt x y = true -> le x y = true.
Proof.
  unfold lt, le. rewrite ltb_iff, leb_iff. intros (N1 & N2 & L).
  unfold lex_le. auto.
Qed.

Lemma is_zero_le x y : is_zero x = true -> is_zero y = true -> le x y = true.
Proof.
  unfold is_zero, le. rewrite !eqb_iff, leb_iff. unfold lex_le.
  intros (? & ? & ->) (? & ? & ->). auto.
Qed.

(** [x - y] is NaN when [x] is. *)
Lemma is_nan_sub_l x y : is_nan x = true -> is_nan (x - y)%float = true.
Proof.
  intros N.
  assert (E : Prim2SF x = S754_nan).
  { destruct (Prim2SF x) eqn:E; [| |done|];
      (assert (notnan x) as N' by (apply notnan_spec; congruence));
      unfold notnan in N'; congruence. }
  unfold is_nan. rewrite FloatAxioms.eqb_spec, sub_spec, E.
  by destruct (Prim2SF y).
Qed.

Lemma existsb_nan_false xs :
  existsb is_nan xs = false <-> Forall notnan xs.
Proof.
  induction xs as [|x xs IH]; cbn.
  - split; auto.
  - rewrite orb_false_iff, IH, Forall_cons. reflexivity.
Qed.

Lemma key_neg_infinity x : notnan x -> lex_le (key x) (key neg_infinity) -> x = neg_infinity.
Proof.
  rewrite notnan_spec. unfold key. intros N L. apply Prim2SF_inj.
  change (Prim2SF neg_infinity) with (S754_infinity true) in *.
  destruct (Prim2SF x) as [[]|[]| |[] m e]; try congruence;
    destruct L as [L|L]; try discriminate L; unfold lex_lt in L; cbn in L; lia.
Qed.

Lemma key_infinity x : notnan x -> lex_le (key infinity) (key x) -> x = infinity.
Proof.
  rewrite notnan_spec. unfold key. intros N L. apply Prim2SF_inj.
  change (Prim2SF infinity) with (S754_infinity false) in *.
  destruct (Prim2SF x) as [[]|[]| |[] m e]; try congruence;
    destruct L as [L|L]; try discriminate L; unfold lex_lt in L; cbn in L; lia.
Qed.

Create HintDb number_order.
#[export] Hint Resolve le_refl is_zero_le lt_le not_lt_le : number_order.

(** One step of [Math.max] and of [Math.min] on numbers that are not NaN. *)
Lemma max_step_spec h x :
  notnan h -> notnan x ->
  notnan (max_step h x) /\ (max_step h x = h \/ max_step h x = x) /\
  le h (max_step h x) = true /\ le x (max_step h x) = true.
Proof.
  intros Nh Nx. unfold max_step.
  destruct (is_zero x && is_zero h && negb (get_sign x) && get_sign h) eqn:Z.
  - rewrite !andb_true_iff in Z. destruct Z as [[[Zx Zh] _] _].
    repeat split; auto with number_order.
  - destruct (gt x h) eqn:G.
    + repeat split; auto with number_order.
    + repeat split; auto with number_order.
Qed.

Lemma min_step_spec l x :
  notnan l -> notnan x ->
  notnan (min_step l x) /\ (min_step l x = l \/ min_step l x = x) /\
  le (min_step l x) l = true /\ le (min_step l x) x = true.
Proof.
  intros Nl Nx. unfold min_step.
  destruct (is_zero x && is_zero l && get_sign x && negb (get_sign l)) eqn:Z.
  - rewrite !andb_true_iff in Z. destruct Z as [[[Zx Zl] _] _].
    repeat split; auto with number_order.
  - destruct (lt x l) eqn:G.
    + repeat split; auto with number_order.
    + repeat split; auto with number_order.
Qed.

Lemma fold_max_spec xs h :
  notnan h -> Forall notnan xs ->
  notnan (fold_left max_step xs h) /\
  (fold_left max_step xs h = h \/ In (fold_left max_step xs h) xs) /\
  le h (fold_left max_step xs h) = true /\
  Forall (fun x => le x (fold_left max_step xs h) = true) xs.
Proof.
  intros Nh Nxs. revert h Nh. induction Nxs as [|x xs Nx Nxs IH]; intros h Nh.
  - cbn. auto using le_refl.
  - cbn [fold_left].
    destruct (max_step_spec h x Nh Nx) as (N & C & Lh & Lx).
    destruct (IH _ N) as (N' & C' & L' & F').
    repeat split.
    + done.
    + destruct C' as [E|I]; [|right; by right].
      rewrite E. destruct C as [->| ->]; [by left|right; by left].
    + eauto using le_trans.
    + constructor; eauto using le_trans.
Qed.

Lemma fold_min_spec xs l :
  notnan l -> Forall notnan xs ->
  notnan (fold_left min_step xs l) /\
  (fold_left min_step xs l = l \/ In (fold_left min_step xs l) xs) /\
  le (fold_left min_step xs l) l = true /\
  Forall (fun x => le (fold_left min_step xs l) x = true) xs.
Proof.
  intros Nl Nxs. revert l Nl. induction Nxs as [|x xs Nx Nxs IH]; intros l Nl.
  - cbn. auto using le_refl.
  - cbn [fold_left].
    destruct (min_step_spec l x Nl Nx) as (N & C & Ll & Lx).
    destruct (IH _ N) as (N' & C' & L' & F').
    repeat split.
    + done.
    + destruct C' as [E|I]; [|right; by right].
      rewrite E. destruct C as [->| ->]; [by left|right; by left].
    + eauto using le_trans.
    + constructor; eauto using le_trans.
Qed.

(** [Math.max] and [Math.min] of a non-empty list without NaN: an element of
    the list that bounds every element. *)
Lemma Math_max_spec xs :
  xs <> [] -> Forall notnan xs ->
  In (Math_max xs) xs /\ Forall (fun x => le x (Math_max xs) = true) xs.
Proof.
  intros Ne N. unfold Math_max.
  rewrite (proj2 (existsb_nan_false xs) N).
  destruct (fold_max_spec xs neg_infinity eq_refl N) as (_ & C & _ & F).
  split; [|done]. destruct C as [E|I]; [|done].
  destruct xs as [|x xs]; [done|].
  rewrite E in *. apply Forall_cons in F as [Lx _]. apply Forall_cons in N as [Nx _].
  apply leb_iff in Lx as (_ & _ & Lx).
  rewrite <- (key_neg_infinity x Nx Lx). by left.
Qed.

Lemma Math_min_spec xs :
  xs <> [] -> Forall notnan xs ->
  In (Math_min xs) xs /\ Forall (fun x => le (Math_min xs) x = true) xs.
Proof.
  intros Ne N. unfold Math_min.
  rewrite (proj2 (existsb_nan_false xs) N).
  destruct (fold_min_spec xs infinity eq_refl N) as (_ & C & _ & F).
  split; [|done]. destruct C as [E|I]; [|done].
  destruct xs as [|x xs]; [done|].
  rewrite E in *. apply Forall_cons in F as [Lx _]. apply Forall_cons in N as [Nx _].
  apply leb_iff in Lx as (_ & _ & Lx).
  rewrite <- (key_infinity x Nx Lx). by left.
Qed.

End NumberOrder.

(** ** The rolling window *)

Module SensorHistoryFacts.
Import Js Spec NumberOrder SensorHistoryService.

Lemma wf_init : wf init.
Proof.
  exists []. split; [|constructor]. unfold init. cbn. by rewrite lookup_singleton_eq.
Qed.

Lemma bounded_init : bounded init.
Proof.
  intros l a. unfold init. cbn. intros E.
  apply lookup_singleton_Some in E as [_ <-]. cbn. unfold maxReadings. lia.
Qed.

Lemma fresh_store (h : gmap loc (list obj)) : h !! fresh (dom h) = None.
Proof. apply not_elem_of_dom. apply is_fresh. Qed.

Lemma fresh_object (o : gmap obj SensorReading) : o !! fresh (dom o) = None.
Proof. apply not_elem_of_dom. apply is_fresh. Qed.

(** Reading an array of allocated objects. *)
Lemma contents_app o a b : contents o (a ++ b) = contents o a ++ contents o b.
Proof. apply omap_app. Qed.

Lemma contents_cons o r x a : o !! r = Some x -> contents o (r :: a) = x :: contents o a.
Proof. intros E. unfold contents. cbn. by rewrite E. Qed.

Lemma length_contents_le o a : length (contents o a) <= length a.
Proof.
  induction a as [|r a IH]; [done|]. unfold contents in *. cbn.
  destruct (o !! r); cbn; lia.
Qed.

Lemma length_contents o a : allocated o a -> length (contents o a) = length a.
Proof.
  induction 1 as [|r a [x E] _ IH]; [done|].
  rewrite (contents_cons _ _ _ _ E). cbn. by rewrite IH.
Qed.

Lemma contents_lookup o a i :
  allocated o a -> contents o a !! i = a !! i ≫= (fun r => o !! r).
Proof.
  intros A. revert i. induction A as [|r a [x E] _ IH]; intros i; [done|].
  rewrite (contents_cons _ _ _ _ E). destruct i as [|i]; cbn; [by rewrite E|apply IH].
Qed.

Lemma contents_trim o a : allocated o a -> contents o (trim a) = trim (contents o a).
Proof.
  intros A. unfold trim. rewrite (length_contents _ _ A).
  destruct (maxReadings <? length a)%nat; [|done].
  destruct A as [|r a [x E] _]; [done|]. by rewrite (contents_cons _ _ _ _ E).
Qed.

Lemma allocated_trim o a : allocated o a -> allocated o (trim a).
Proof.
  intros A. unfold trim. destruct (maxReadings <? length a)%nat; [|done].
  by apply Forall_drop.
Qed.

(** Objects allocated later leave the objects allocated before as they are. *)
Lemma allocated_insert o r x a : o !! r = None -> allocated o a -> allocated (<[r := x]> o) a.
Proof.
  intros F A. eapply Forall_impl; [exact A|]. cbn. intros k [y E].
  exists y. rewrite lookup_insert_ne; [done|]. intros <-. by rewrite F in E.
Qed.

Lemma contents_insert o r x a :
  o !! r = None -> allocated o a -> contents (<[r := x]> o) a = contents o a.
Proof.
  intros F A. induction A as [|k a [y E] _ IH]; [done|].
  assert (E' : <[r := x]> o !! k = Some y).
  { rewrite lookup_insert_ne; [done|]. intros <-. by rewrite F in E. }
  by rewrite (contents_cons _ _ _ _ E), (contents_cons _ _ _ _ E'), IH.
Qed.

(** The store after [addReading]: a new object is allocated, the old array is
    updated in place, the new array is a copy of it holding the same
    references, every other array and object is untouched. *)
Lemma addReading_store temperature humidity now s :
  wf s ->
  let x := {| temperature := temperature; humidity := humidity; timestamp := now |} in
  let old := readingsSubject s in
  let s' := addReading temperature humidity now s in
  let new := readingsSubject s' in
  exists a r,
    store s !! old = Some a /\ allocated (objects s) a /\
    objects s !! r = None /\
    objects s' = <[r := x]> (objects s) /\
    store s !! new = None /\
    new <> old /\
    store s' !! new = Some (trim (a ++ [r])) /\
    store s' !! old = Some (trim (a ++ [r])) /\
    (forall l, l <> old -> l <> new -> store s' !! l = store s !! l).
Proof.
  intros (a & Ha & Al) x old s' new.
  set (r := fresh (dom (objects s))).
  set (h1 := array_push old r (store s)).
  assert (H1 : h1 !! old = Some (a ++ [r])).
  { unfold h1, array_push. rewrite lookup_alter_eq. fold old in Ha. by rewrite Ha. }
  set (h2 := if (maxReadings <? length (deref h1 old))%nat then array_shift old h1 else h1).
  assert (H2 : h2 !! old = Some (trim (a ++ [r]))).
  { assert (D1 : deref h1 old = a ++ [r]) by (unfold deref; by rewrite H1).
    unfold h2, trim. rewrite D1.
    destruct (maxReadings <? length (a ++ [r]))%nat; [|done].
    unfold array_shift. rewrite lookup_alter_eq, H1. done. }
  assert (Hdom : forall l, l <> old -> h2 !! l = store s !! l).
  { intros l Hl. unfold h2.
    destruct (maxReadings <? length (deref h1 old))%nat.
    - unfold array_shift. rewrite lookup_alter_ne by done.
      unfold h1, array_push. by rewrite lookup_alter_ne.
    - unfold h1, array_push. by rewrite lookup_alter_ne. }
  assert (Es : s' = next (fresh (dom h2)) (<[r := x]> (objects s))
                         (<[fresh (dom h2) := deref h2 old]> h2)).
  { reflexivity. }
  assert (En : new = fresh (dom h2)) by reflexivity.
  assert (Hf : h2 !! new = None) by (rewrite En; apply fresh_store).
  assert (Hne : new <> old).
  { intros E. rewrite E, H2 in Hf. done. }
  exists a, r. split; [exact Ha|]. split; [exact Al|]. split; [apply fresh_object|].
  split; [by rewrite Es|]. split; [by rewrite <- Hdom|]. split; [done|].
  split; [|split].
  - rewrite Es. cbn. rewrite <- En, lookup_insert_eq. unfold deref. by rewrite H2.
  - rewrite Es. cbn. rewrite <- En, lookup_insert_ne by done. done.
  - intros l Hl Hl'. rewrite Es. cbn. rewrite <- En, lookup_insert_ne by done. by apply Hdom.
Qed.

(** The new object is appended to the allocated objects of the array. *)
Lemma pushed_contents o a r x :
  o !! r = None -> allocated o a ->
  allocated (<[r := x]> o) (trim (a ++ [r])) /\
  contents (<[r := x]> o) (trim (a ++ [r])) = trim (contents o a ++ [x]).
Proof.
  intros F A.
  assert (A' : allocated (<[r := x]> o) (a ++ [r])).
  { apply Forall_app. split; [by apply allocated_insert|].
    constructor; [|constructor]. exists x. apply lookup_insert_eq. }
  split; [by apply allocated_trim|].
  rewrite contents_trim by done. f_equal.
  rewrite contents_app, contents_insert by done. f_equal.
  apply contents_cons, lookup_insert_eq.
Qed.

Lemma addReading_value temperature humidity now s :
  wf s ->
  value (addReading temperature humidity now s) =
    trim (value s ++ [reading_of (temperature, humidity, now)]).
Proof.
  intros W.
  destruct (addReading_store temperature humidity now s W)
    as (a & r & Ea & Al & F & Eo & _ & _ & En & _).
  unfold value, deref. rewrite En, Eo, Ea. cbn [default].
  by destruct (pushed_contents (objects s) a r
                 {| temperature := temperature; humidity := humidity; timestamp := now |} F Al).
Qed.

Lemma addReading_wf temperature humidity now s :
  wf s -> wf (addReading temperature humidity now s).
Proof.
  intros W.
  destruct (addReading_store temperature humidity now s W)
    as (a & r & Ea & Al & F & Eo & _ & _ & En & _).
  exists (trim (a ++ [r])). split; [exact En|]. rewrite Eo.
  by apply pushed_contents.
Qed.

Lemma length_trim {A : Type} (a : list A) :
  length a <= S maxReadings -> length (trim a) <= maxReadings.
Proof.
  unfold trim. destruct (maxReadings <? length a)%nat eqn:E.
  - rewrite length_drop. lia.
  - apply Nat.ltb_ge in E. lia.
Qed.

Lemma addReading_bounded temperature humidity now s :
  wf s -> bounded s -> bounded (addReading temperature humidity now s).
Proof.
  intros W B l b E.
  destruct (addReading_store temperature humidity now s W)
    as (a & r & Ea & _ & _ & _ & _ & _ & E1 & E2 & E3).
  assert (Hl : length (trim (a ++ [r])) <= maxReadings).
  { apply length_trim. rewrite length_app. cbn. specialize (B _ _ Ea). lia. }
  destruct (decide (l = readingsSubject (addReading temperature humidity now s))) as [->|N1].
  { rewrite E1 in E. by injection E as <-. }
  destruct (decide (l = readingsSubject s)) as [->|N2].
  { rewrite E2 in E. by injection E as <-. }
  rewrite E3 in E by done. by apply (B l).
Qed.

(** An array that is not the current one, and the objects it refers to, are
    out of the reach of [addReading]. *)
Lemma addReading_frame temperature humidity now s l b :
  wf s -> store s !! l = Some b -> l <> readingsSubject s -> allocated (objects s) b ->
  let s' := addReading temperature humidity now s in
  store s' !! l = Some b /\ l <> readingsSubject s' /\ allocated (objects s') b /\
  read l s' = read l s.
Proof.
  intros W El Nl Al s'.
  destruct (addReading_store temperature humidity now s W)
    as (a & r & _ & _ & F & Eo & Fn & _ & _ & _ & Ot).
  fold s' in Eo, Fn, Ot.
  assert (Nn : l <> readingsSubject s').
  { intros E. rewrite <- E, El in Fn. done. }
  assert (El' : store s' !! l = Some b) by (by rewrite Ot).
  split; [exact El'|]. split; [exact Nn|]. rewrite Eo.
  split; [by apply allocated_insert|].
  unfold read, deref. rewrite El', El, Eo. cbn [default]. by apply contents_insert.
Qed.
Lemma addReadings_inv rs s :
  wf s -> bounded s ->
  wf (addReadings rs s) /\ bounded (addReadings rs s) /\
  value (addReadings rs s) =
    fold_left (fun a r => trim (a ++ [reading_of r])) rs (value s).
Proof.
  revert s. induction rs as [|[[t h] n] rs IH]; intros s W B; [done|].
  change (addReadings ((t, h, n) :: rs) s) with (addReadings rs (addReading t h n s)).
  destruct (IH (addReading t h n s)) as (W' & B' & E);
    [by apply addReading_wf | by apply addReading_bounded |].
  repeat split; [done..|]. rewrite E, addReading_value by done. done.
Qed.

(** On lists: trimming after each push keeps the last [maxReadings] pushed. *)
Lemma trim_last_n (l : list SensorReading) x :
  trim (last_n maxReadings l ++ [x]) = last_n maxReadings (l ++ [x]).
Proof.
  unfold trim, last_n.
  assert (L1 : length (drop (length l - maxReadings) l ++ [x]) =
               length l - (length l - maxReadings) + 1).
  { by rewrite length_app, length_drop. }
  assert (L2 : length (l ++ [x]) = length l + 1) by (by rewrite length_app).
  rewrite L1, L2.
  destruct (maxReadings <? length l - (length l - maxReadings) + 1)%nat eqn:E.
  - apply Nat.ltb_lt in E.
    rewrite <- drop_app_le by lia.
    rewrite drop_drop. f_equal. lia.
  - apply Nat.ltb_ge in E.
    replace (length l - maxReadings) with 0 by lia.
    replace (length l + 1 - maxReadings) with 0 by lia. done.
Qed.

Lemma fold_trim_last_n (rs : list (float * float * float)) (l : list (float * float * float)) :
  fold_left (fun a r => trim (a ++ [reading_of r])) rs (last_n maxReadings (map reading_of l)) =
  last_n maxReadings (map reading_of (l ++ rs)).
Proof.
  revert l. induction rs as [|r rs IH]; intros l.
  - by rewrite app_nil_r.
  - cbn [fold_left]. rewrite trim_last_n.
    replace (map reading_of l ++ [reading_of r]) with (map reading_of (l ++ [r]))
      by (by rewrite map_app).
    rewrite IH. by rewrite <- app_assoc.
Qed.

(** C1.  After any run of [N] calls of [addReading] from the empty window,
    the window holds the last [maxReadings] = 100 readings pushed, in arrival
    order (all of them when [N <= 100]), and its length is [min N 100]; the
    next call appends its reading and evicts the oldest one exactly when the
    length would exceed 100; every array a caller may hold a reference to has
    at most 100 elements. *)
Theorem C1_rolling_window (rs : list (float * float * float)) :
  let s := addReadings rs init in
  maxReadings = 100 /\
  value s = last_n 100 (map reading_of rs) /\
  length (value s) = Nat.min (length rs) 100 /\
  (forall temperature humidity now,
      value (addReading temperature humidity now s) =
        let pushed := value s ++ [reading_of (temperature, humidity, now)] in
        if (100 <? length pushed)%nat then drop 1 pushed else pushed) /\
  read (getAllReadings s) s = value s /\
  (forall l, length (read l s) <= 100).
Proof.
  intros s.
  destruct (addReadings_inv rs init wf_init bounded_init) as (W & B & E).
  fold s in W, B, E.
  assert (Ev : value s = last_n 100 (map reading_of rs)).
  { rewrite E. change (value init) with (last_n maxReadings (map reading_of [])).
    by rewrite fold_trim_last_n. }
  repeat split.
  - done.
  - rewrite Ev. unfold last_n. rewrite length_drop, length_map. lia.
  - intros temperature humidity now. by rewrite addReading_value.
  - intros l. unfold read, deref.
    etransitivity; [apply length_contents_le|].
    destruct (store s !! l) as [a|] eqn:El; cbn.
    + apply (B l a El).
    + lia.
Qed.



(** The statistics are functions of the contents of the current array. *)
Lemma stats_of_value s :
  getAverageTemperature s =
    (if (length (value s) =? 0)%nat then 0
     else fold_left (fun acc r => acc + temperature r) (value s) 0
          / of_nat (length (value s)))%float /\
  getAverageHumidity s =
    (if (length (value s) =? 0)%nat then 0
     else fold_left (fun acc r => acc + humidity r) (value s) 0
          / of_nat (length (value s)))%float /\
  getMaxTemperature s =
    (if (length (value s) =? 0)%nat then 0%float else Math_max (map temperature (value s))) /\
  getMinTemperature s =
    (if (length (value s) =? 0)%nat then 0%float else Math_min (map temperature (value s))) /\
  getMaxHumidity s =
    (if (length (value s) =? 0)%nat then 0%float else Math_max (map humidity (value s))) /\
  getMinHumidity s =
    (if (length (value s) =? 0)%nat then 0%float else Math_min (map humidity (value s))).
Proof. repeat split. Qed.

Lemma min_max_spec (xs : list float) :
  xs <> [] -> Forall notnan xs ->
  In (Math_min xs) xs /\ In (Math_max xs) xs /\
  Forall (fun x => le (Math_min xs) x = true /\ le x (Math_max xs) = true) xs /\
  le (Math_min xs) (Math_max xs) = true.
Proof.
  intros Ne N.
  destruct (Math_max_spec xs Ne N) as [Imax Fmax].
  destruct (Math_min_spec xs Ne N) as [Imin Fmin].
  rewrite Forall_forall in Fmax, Fmin.
  repeat split; try done.
  - apply Forall_forall. intros x Hx. split; [by apply Fmin|by apply Fmax].
  - apply Fmax. by apply list_elem_of_In.
Qed.

(** C7, as stated, fails: on the window holding 0.1 three times the average
    temperature is 0.10000000000000002 (the rounded sum 0.30000000000000004
    divided by 3), above the maximum 0.1. *)
Lemma C7_counterexample :
  value three_tenths <> [] /\
  getMaxTemperature three_tenths = 0.1%float /\
  getAverageTemperature three_tenths = 0.10000000000000002%float /\
  ~ (le (getMinTemperature three_tenths) (getAverageTemperature three_tenths) = true /\
     le (getAverageTemperature three_tenths) (getMaxTemperature three_tenths) = true).
Proof.
  split; [|split; [|split]].
  - intros E. apply (f_equal length) in E. vm_compute in E. discriminate E.
  - vm_compute. reflexivity.
  - vm_compute. reflexivity.
  - intros [_ L]. vm_compute in L. discriminate L.
Qed.

(** C7, amended.  On an empty window the six statistics are 0.  On a
    non-empty window whose readings are not NaN, per dimension: the minimum
    and the maximum are values of held readings, every held value lies between
    them, so min <= max; the average is the binary64 quotient of the
    left-to-right binary64 sum of the held values by their count (it is not
    claimed to lie between the minimum and the maximum). *)
Theorem C7_statistics (s : state) :
  value s <> [] ->
  Forall notnan (map temperature (value s)) ->
  Forall notnan (map humidity (value s)) ->
  (In (getMinTemperature s) (map temperature (value s)) /\
   In (getMaxTemperature s) (map temperature (value s)) /\
   Forall (fun x => le (getMinTemperature s) x = true /\ le x (getMaxTemperature s) = true)
          (map temperature (value s)) /\
   le (getMinTemperature s) (getMaxTemperature s) = true) /\
  (In (getMinHumidity s) (map humidity (value s)) /\
   In (getMaxHumidity s) (map humidity (value s)) /\
   Forall (fun x => le (getMinHumidity s) x = true /\ le x (getMaxHumidity s) = true)
          (map humidity (value s)) /\
   le (getMinHumidity s) (getMaxHumidity s) = true) /\
  getAverageTemperature s =
    (fold_left (fun acc r => acc + temperature r) (value s) 0
     / of_nat (length (value s)))%float /\
  getAverageHumidity s =
    (fold_left (fun acc r => acc + humidity r) (value s) 0
     / of_nat (length (value s)))%float /\
  (forall s0, value s0 = [] ->
     getAverageTemperature s0 = 0%float /\ getMaxTemperature s0 = 0%float /\
     getMinTemperature s0 = 0%float /\ getAverageHumidity s0 = 0%float /\
     getMaxHumidity s0 = 0%float /\ getMinHumidity s0 = 0%float).
Proof.
  intros Ne Nt Nh.
  destruct (stats_of_value s) as (Eat & Eah & Ext & Ent & Exh & Enh).
  assert (L : (length (value s) =? 0)%nat = false).
  { apply Nat.eqb_neq. destruct (value s); [done|cbn; lia]. }
  rewrite L in *. rewrite Eat, Eah, Ext, Ent, Exh, Enh.
  split; [|split; [|split; [done|split; [done|]]]].
  - apply min_max_spec; [|done]. destruct (value s); [done|discriminate].
  - apply min_max_spec; [|done]. destruct (value s); [done|discriminate].
  - intros s0 E0. destruct (stats_of_value s0) as (-> & -> & -> & -> & -> & ->).
    rewrite E0. repeat split.
Qed.

Lemma C7_statistics_witness :
  le (getMinTemperature three_tenths) (getMaxTemperature three_tenths) = true /\
  le (getMinHumidity three_tenths) (getMaxHumidity three_tenths) = true.
Proof.
  assert (Ne : value three_tenths <> []).
  { intros E. apply (f_equal length) in E. vm_compute in E. discriminate E. }
  assert (Nt : Forall notnan (map temperature (value three_tenths))).
  { vm_compute. repeat constructor. }
  assert (Nh : Forall notnan (map humidity (value three_tenths))).
  { vm_compute. repeat constructor. }
  destruct (C7_statistics three_tenths Ne Nt Nh) as ((_ & _ & _ & Lt) & (_ & _ & _ & Lh) & _).
  exact (conj Lt Lh).
Defined.



Lemma mutate_read l f s :
  read l (mutate l f s) =
    contents (objects s) (match store s !! l with Some a => f a | None => [] end).
Proof.
  unfold read, mutate, deref. cbn. rewrite lookup_alter_eq.
  by destruct (store s !! l).
Qed.

Lemma mutate_read_ne l l' f s : l <> l' -> read l' (mutate l f s) = read l' s.
Proof.
  intros N. unfold read, mutate, deref. cbn. by rewrite lookup_alter_ne.
Qed.

(** Pushing a new object onto an array appends its reading there, and leaves
    every other array of allocated objects as it is. *)
Lemma push_read l x s a :
  store s !! l = Some a -> allocated (objects s) a -> read l (push l x s) = read l s ++ [x].
Proof.
  intros E A. unfold read, push, new_object, deref, array_push. cbn [objects store].
  rewrite lookup_alter_eq, E. cbn [fmap option_fmap option_map from_option id].
  rewrite contents_app, contents_insert by (done || apply fresh_object).
  f_equal. apply contents_cons, lookup_insert_eq.
Qed.

Lemma push_read_ne l l' x s :
  l <> l' -> allocated (objects s) (deref (store s) l') -> read l' (push l x s) = read l' s.
Proof.
  intros N A. unfold read, push, new_object, deref, array_push in *. cbn [objects store].
  rewrite lookup_alter_ne by done. apply contents_insert; [apply fresh_object|done].
Qed.

(** Assigning to the fields of the [i]-th reading of an array is seen through
    every array that holds the object. *)
Lemma update_read l l' i j g s r :
  deref (store s) l !! i = Some r ->
  deref (store s) l' !! j = Some r ->
  allocated (objects s) (deref (store s) l') ->
  read l' (update l i g s) !! j = g <$> read l' s !! j.
Proof.
  intros Ei Ej A. unfold update. rewrite Ei. unfold read. cbn.
  assert (A' : allocated (alter g r (objects s)) (deref (store s) l')).
  { eapply Forall_impl; [exact A|]. cbn. intros k [y E].
    destruct (decide (k = r)) as [->|N].
    - exists (g y). by rewrite lookup_alter_eq, E.
    - exists y. by rewrite lookup_alter_ne. }
  rewrite !contents_lookup by done. rewrite Ej. cbn.
  rewrite lookup_alter_eq. by destruct (objects s !! r).
Qed.

Lemma value_update l i g s :
  value (update l i g s) = read (readingsSubject s) (update l i g s).
Proof. unfold update. by destruct (deref (store s) l !! i). Qed.

(** A run of [addReading] calls keeps the state well formed and leaves an
    array that is not the current one, and its objects, as they are. *)
Lemma addReadings_frame rs s l b :
  wf s -> store s !! l = Some b -> l <> readingsSubject s -> allocated (objects s) b ->
  let s' := addReadings rs s in
  wf s' /\ store s' !! l = Some b /\ l <> readingsSubject s' /\
  allocated (objects s') b /\ read l s' = read l s.
Proof.
  revert s. induction rs as [|[[t h] n] rs IH]; intros s W El Nl Al; [done|].
  change (addReadings ((t, h, n) :: rs) s) with (addReadings rs (addReading t h n s)).
  destruct (addReading_frame t h n s l b W El Nl Al) as (El' & Nl' & Al' & R).
  destruct (IH (addReading t h n s) (addReading_wf t h n s W) El' Nl' Al')
    as (W'' & El'' & Nl'' & Al'' & R'').
  cbv zeta. repeat split; try done. by rewrite R''.
Qed.

(** C8, as stated, fails: the array [getAllReadings] returns is the array the
    subject holds.  The next [addReading] appends to the array returned
    before, and emptying the returned array empties the window and changes
    its average from 20 to 0.  Once [addReading] has published a copy, the
    array returned before still holds the reading objects of the window:
    setting the temperature of its first reading to 999 changes the maximum
    of the window from 21 to 999. *)
Lemma C8_counterexample :
  let s := one_reading in
  let snapshot := getAllReadings s in
  let s1 := addReading 21 51 2 s in
  let hot r := {| temperature := 999; humidity := humidity r; timestamp := timestamp r |} in
  read snapshot s = [reading_of (20, 50, 1)%float] /\
  read snapshot s1 =
    [reading_of (20, 50, 1)%float; reading_of (21, 51, 2)%float] /\
  read snapshot s1 <> read snapshot s /\
  value (mutate snapshot (fun _ => []) s) = [] /\
  getAverageTemperature s = 20%float /\
  getAverageTemperature (mutate snapshot (fun _ => []) s) = 0%float /\
  getAllReadings s1 <> snapshot /\
  getMaxTemperature s1 = 21%float /\
  getMaxTemperature (update snapshot 0 hot s1) = 999%float.
Proof.
  cbv zeta. split; [|split; [|split; [|split; [|split; [|split; [|split; [|split]]]]]]].
  - vm_compute. reflexivity.
  - vm_compute. reflexivity.
  - intros E. apply (f_equal length) in E. vm_compute in E. discriminate E.
  - vm_compute. reflexivity.
  - vm_compute. reflexivity.
  - vm_compute. reflexivity.
  - intros E. vm_compute in E. discriminate E.
  - vm_compute. reflexivity.
  - vm_compute. reflexivity.
Qed.

(** C8, amended.  [getAllReadings] returns the reference the subject holds,
    not a copy.  While it is the current array, an update a caller makes
    through it is an update of the window, and the next [addReading] updates
    it in place (push, then eviction beyond the capacity).  That [addReading]
    publishes a shallow copy: another array, holding the same reading
    objects.  From then on, whatever [addReading] calls follow, the array
    returned before and the current array are separate: the calls leave the
    array returned before as it is, and rearranging, truncating or pushing to
    either array leaves the other as it is.  The reading objects stay shared:
    assigning to the fields of a reading through one array changes the
    reading wherever the other array holds the same object, which right after
    the copy is at the same index. *)
Theorem C8_getAllReadings_shares_the_array
    (s : state) (t h n : float) (rs : list (float * float * float))
    (f : list obj -> list obj) (x : SensorReading)
    (i : nat) (g : SensorReading -> SensorReading) :
  wf s ->
  let r := getAllReadings s in
  let s1 := addReading t h n s in
  let s2 := addReadings rs s1 in
  (r = readingsSubject s /\ read r s = value s) /\
  (value (mutate r f s) = contents (objects s) (f (deref (store s) r)) /\
   value (mutate r (fun _ => []) s) = [] /\
   value (push r x s) = value s ++ [x]) /\
  (read r s1 = trim (read r s ++ [reading_of (t, h, n)]) /\
   read r s1 = value s1 /\
   getAllReadings s1 <> r) /\
  (getAllReadings s2 <> r /\
   read r s2 = read r s1 /\
   value (mutate r f s2) = value s2 /\
   value (push r x s2) = value s2 /\
   read r (mutate (getAllReadings s2) f s2) = read r s2 /\
   read r (push (getAllReadings s2) x s2) = read r s2) /\
  (deref (store s1) (getAllReadings s1) = deref (store s1) r /\
   (forall y, read r s1 !! i = Some y ->
      value (update r i g s1) !! i = Some (g y) /\
      read r (update (getAllReadings s1) i g s1) !! i = Some (g y)) /\
   (forall j o,
      deref (store s2) r !! i = Some o ->
      deref (store s2) (getAllReadings s2) !! j = Some o ->
      value (update r i g s2) !! j = g <$> value s2 !! j)).
Proof.
  intros W r s1 s2.
  destruct (addReading_store t h n s W) as (a & k & Ea & Al & Fk & Eo & F1 & N1 & En & Eold & _).
  pose proof (addReading_wf t h n s W) as W1. fold s1 in W1, En, Eold, N1, F1, Eo.
  destruct (pushed_contents (objects s) a k
              {| temperature := t; humidity := h; timestamp := n |} Fk Al) as [Al1 Ec1].
  rewrite <- Eo in Al1, Ec1.
  assert (Nr : r <> readingsSubject s1) by (unfold r, getAllReadings; auto).
  destruct (addReadings_frame rs s1 r _ W1 Eold Nr Al1) as (W2 & E2 & N2 & Al2 & R2).
  fold s2 in W2, E2, N2, Al2, R2.
  destruct W2 as (c & Ec & Alc).
  assert (D1 : deref (store s1) r = trim (a ++ [k])).
  { unfold deref, r, getAllReadings. by rewrite Eold. }
  assert (D1' : deref (store s1) (readingsSubject s1) = trim (a ++ [k])).
  { unfold deref. by rewrite En. }
  assert (Dc : deref (store s2) (readingsSubject s2) = c) by (unfold deref; by rewrite Ec).
  assert (Vs : value s = contents (objects s) a).
  { unfold value, deref. by rewrite Ea. }
  split; [done|]. split; [|split; [|split; [|split; [|split]]]].
  - split; [|split].
    + change (value (mutate r f s)) with (read (readingsSubject s) (mutate (readingsSubject s) f s)).
      rewrite mutate_read. unfold deref, r, getAllReadings. by rewrite Ea.
    + change (value (mutate r (fun _ => []) s))
        with (read (readingsSubject s) (mutate (readingsSubject s) (fun _ => []) s)).
      rewrite mutate_read. by rewrite Ea.
    + apply (push_read (readingsSubject s) x s a Ea Al).
  - assert (E : read r s1 = trim (read r s ++ [reading_of (t, h, n)])).
    { unfold read at 1. rewrite D1, Ec1. unfold read, deref, r, getAllReadings.
      by rewrite Ea. }
    split; [exact E|]. split; [|auto].
    unfold read, value. by rewrite D1, D1'.
  - split; [auto|]. split; [exact R2|]. split; [|split; [|split]].
    + change (value (mutate r f s2)) with (read (readingsSubject s2) (mutate r f s2)).
      by apply mutate_read_ne.
    + change (value (push r x s2)) with (read (readingsSubject s2) (push r x s2)).
      apply push_read_ne; [done|]. by rewrite Dc.
    + apply mutate_read_ne. auto.
    + apply push_read_ne; [auto|]. unfold deref. by rewrite E2.
  - unfold getAllReadings. by rewrite D1, D1'.
  - intros y Ey.
    assert (A1 : allocated (objects s1) (deref (store s1) r)) by (by rewrite D1).
    assert (A1' : allocated (objects s1) (deref (store s1) (readingsSubject s1)))
      by (by rewrite D1').
    assert (Ek : exists o, deref (store s1) r !! i = Some o).
    { unfold read in Ey. rewrite contents_lookup in Ey by done.
      destruct (deref (store s1) r !! i) as [o|]; [eauto|discriminate]. }
    destruct Ek as [o Eoi].
    assert (Eoi' : deref (store s1) (readingsSubject s1) !! i = Some o)
      by (by rewrite D1', <- D1).
    assert (Ey' : value s1 !! i = Some y).
    { unfold value. rewrite D1', <- D1. exact Ey. }
    split.
    + rewrite value_update.
      rewrite (update_read r (readingsSubject s1) i i g s1 o Eoi Eoi' A1').
      change (read (readingsSubject s1) s1) with (value s1). by rewrite Ey'.
    + unfold getAllReadings.
      rewrite (update_read (readingsSubject s1) r i i g s1 o Eoi' Eoi A1).
      by rewrite Ey.
  - intros j o Ei Ej.
    rewrite value_update.
    apply (update_read r (readingsSubject s2) i j g s2 o Ei Ej). by rewrite Dc.
Qed.

Lemma C8_getAllReadings_shares_the_array_witness :
  read (getAllReadings one_reading) (addReading 21 51 2 one_reading) =
    value (addReading 21 51 2 one_reading).
Proof.
  assert (W : wf one_reading).
  { exists [0]. split; [vm_compute; reflexivity|].
    constructor; [vm_compute; eauto|constructor]. }
  destruct (C8_getAllReadings_shares_the_array one_reading 21 51 2 [(22, 52, 3)%float]
              (fun a => a) (reading_of (23, 53, 4)%float) 0 (fun y => y) W)
    as (_ & _ & (_ & E & _) & _).
  exact E.
Defined.

(** [clearReadings] publishes a new empty array: the window is empty, its six
    statistics are 0, and an array handed out before keeps its contents. *)
Theorem clearReadings_empties (s : state) :
  value (clearReadings s) = [] /\
  (getAverageTemperature (clearReadings s) = 0%float /\
   getMaxTemperature (clearReadings s) = 0%float /\
   getMinTemperature (clearReadings s) = 0%float /\
   getAverageHumidity (clearReadings s) = 0%float /\
   getMaxHumidity (clearReadings s) = 0%float /\
   getMinHumidity (clearReadings s) = 0%float) /\
  (forall l a, store s !! l = Some a ->
     store (clearReadings s) !! l = Some a /\
     read l (clearReadings s) = contents (objects s) a) /\
  (forall l, read l (clearReadings s) = read l s).
Proof.
  assert (E : value (clearReadings s) = []).
  { unfold value, clearReadings, deref. cbn. by rewrite lookup_insert_eq. }
  assert (S : forall l a, store s !! l = Some a -> store (clearReadings s) !! l = Some a).
  { intros l a Hl. unfold clearReadings. cbn. rewrite lookup_insert_ne; [done|].
    intros <-. by rewrite fresh_store in Hl. }
  split; [exact E|]. split; [|split].
  - destruct (stats_of_value (clearReadings s)) as (-> & -> & -> & -> & -> & ->).
    rewrite E. repeat split.
  - intros l a Hl. split; [by apply S|].
    unfold read, deref. by rewrite (S l a Hl).
  - intros l. unfold read, deref.
    destruct (store s !! l) as [a|] eqn:Hl; [by rewrite (S l a Hl)|].
    unfold clearReadings. cbn.
    destruct (decide (fresh (dom (store s)) = l)) as [<-|N].
    + by rewrite lookup_insert_eq.
    + by rewrite lookup_insert_ne, Hl.
Qed.

End SensorHistoryFacts.

(** ** The sort *)

Module SortFacts.
Import Js Spec NumberOrder.

Section Sort.
Context {A : Type} (comparefn : A -> A -> float).

Lemma sort_insert_Permutation x l : Permutation (sort_insert comparefn x l) (x :: l).
Proof.
  induction l as [|y l IH]; cbn [sort_insert]; [reflexivity|].
  destruct (gt (SortCompare comparefn x y) 0); [|reflexivity].
  rewrite IH. apply perm_swap.
Qed.

(** The sort rearranges: it drops and adds nothing. *)
Lemma sort_Permutation l : Permutation (sort comparefn l) l.
Proof.
  induction l as [|x l IH]; cbn [sort]; [reflexivity|].
  rewrite sort_insert_Permutation. by constructor.
Qed.

Lemma sort_singleton x : sort comparefn [x] = [x].
Proof. reflexivity. Qed.

(** A comparator that answers NaN is read as "equal". *)
Lemma SortCompare_nan x y : is_nan (comparefn x y) = true -> SortCompare comparefn x y = 0%float.
Proof. unfold SortCompare. by intros ->. Qed.

(** When the comparator answers NaN on every pair, the sort changes nothing. *)
Lemma sort_nan l :
  (forall x y, In x l -> In y l -> is_nan (comparefn x y) = true) ->
  sort comparefn l = l.
Proof.
  induction l as [|x l IH]; intros N; cbn [sort]; [done|].
  rewrite IH by (intros y z Hy Hz; apply N; by right).
  destruct l as [|y l]; cbn [sort_insert]; [done|].
  rewrite SortCompare_nan by (apply N; [by left|right; by left]).
  reflexivity.
Qed.

End Sort.

End SortFacts.

(** ** The ledger reconciliation *)

Module WarehouseFacts.
Import Js Spec NumberOrder SortFacts WarehouseService.

Lemma lookup_prop_In k v props :
  NoDup (map fst props) -> In (k, v) props -> lookup_prop k props = Some v.
Proof.
  induction props as [|[k' v'] props IH]; cbn; [done|].
  intros ND [E|I].
  - injection E as -> ->. by rewrite String.eqb_refl.
  - apply NoDup_cons in ND as [Nk ND].
    destruct (String.eqb_spec k k') as [->|_]; [|by apply IH].
    exfalso. apply Nk. apply list_elem_of_In. apply (in_map fst _ _ I).
Qed.

Section Reconcile.
Context `{DateParse}.

(** The comparator answers NaN as soon as the engine does not parse the key
    of its second argument. *)
Lemma newest_first_nan {A : Type} (key : A -> string) a b :
  is_nan (Date_parse (key b)) = true -> is_nan (newest_first key a b) = true.
Proof. apply is_nan_sub_l. Qed.

Lemma transaction_of_Some history key tx :
  transaction_of history key = Some tx ->
  date tx = key /\ key <> "alarm" /\ key <> "door" /\
  is_Some (get_opt (get history key) "amount") /\
  amount tx = or_else (get_opt (get history key) "amount") (JNum 0) /\
  ton_sau tx = or_else (get_opt (get history key) "ton_sau") (JNum 0) /\
  type tx = or_else (get_opt (get history key) "type") (JStr "NHAP").
Proof.
  unfold transaction_of.
  destruct (String.eqb_spec key "alarm") as [->|Na]; [done|].
  destruct (String.eqb_spec key "door") as [->|Nd]; [done|].
  cbn [negb andb]. case_bool_decide as S; [|done].
  intros E. injection E as <-. cbn. done.
Qed.

Lemma transaction_entries_spec history tx :
  In tx (transaction_entries history) <->
  exists key, In key (keys history) /\ transaction_of history key = Some tx.
Proof.
  unfold transaction_entries. rewrite <- list_elem_of_In, list_elem_of_omap.
  split; intros (k & Hk & E); exists k; split; try done; by apply list_elem_of_In.
Qed.

Lemma transactions_spec history tx :
  In tx (transactions history) <->
  exists key, In key (keys history) /\ transaction_of history key = Some tx.
Proof.
  rewrite <- transaction_entries_spec. unfold transactions.
  split; apply Permutation_in; [|symmetry]; apply sort_Permutation.
Qed.

(** The entries of an object do not depend on the order of its properties,
    up to their own order. *)
Lemma transaction_entries_object props :
  NoDup (map fst props) ->
  transaction_entries (JObj props) =
    omap (fun kv => transaction_of (JObj [kv]) kv.1) props.
Proof.
  intros ND. unfold transaction_entries. cbn [keys].
  assert (G : forall kv, In kv props ->
                transaction_of (JObj props) kv.1 = transaction_of (JObj [kv]) kv.1).
  { intros [k v] I. unfold transaction_of. cbn [get fst lookup_prop].
    rewrite (lookup_prop_In k v props ND I), String.eqb_refl. done. }
  clear ND. revert G. generalize (JObj props) as history.
  induction props as [|kv props IH]; intros history G; [done|].
  cbn [map omap list_omap]. change (list_omap ?f ?l) with (omap f l).
  rewrite G by (by left). rewrite IH by (intros; apply G; by right). done.
Qed.


(** C3 on the code: when the engine parses none of the keys (the time value
    of each is NaN), every comparison answers NaN, which the sort reads as
    "equal": the transactions, the alarm events and the door events come out
    in the order the keys are enumerated, not newest first. *)
Theorem C3_unparsed_keys_keep_the_key_order (mapping : JsVal) :
  (forall key, In key (keys mapping) -> is_nan (Date_parse key) = true) ->
  transactions mapping = transaction_entries mapping /\
  alarmEvents mapping = alarm_entries mapping /\
  doorEvents mapping = door_entries mapping.
Proof.
  intros N. repeat split.
  - apply sort_nan. intros a b _ Hb. apply newest_first_nan, N.
    apply transaction_entries_spec in Hb as (k & Hk & E).
    apply transaction_of_Some in E as (-> & _). done.
  - apply sort_nan. intros a b _ Hb. apply newest_first_nan, N.
    unfold alarm_entries in Hb. apply in_map_iff in Hb as (k & <- & Hk). done.
  - apply sort_nan. intros a b _ Hb. apply newest_first_nan, N.
    unfold door_entries in Hb. apply in_map_iff in Hb as (k & <- & Hk). done.
Qed.

(** No transaction carries a reserved key, and each carries a key of the
    history whose record has an [amount]. *)
Lemma transactions_sound history tx :
  In tx (transactions history) ->
  In (date tx) (keys history) /\ date tx <> "alarm" /\ date tx <> "door" /\
  is_Some (get_opt (get history (date tx)) "amount").
Proof.
  intros I. apply transactions_spec in I as (k & Hk & E).
  apply transaction_of_Some in E as (-> & Na & Nd & S & _). done.
Qed.

Lemma transaction_of_single key transaction :
  key <> "alarm" -> key <> "door" -> is_Some (get transaction "amount") ->
  transaction_of (JObj [(key, transaction)]) key =
    Some {| date := key;
            amount := or_else (get transaction "amount") (JNum 0);
            ton_sau := or_else (get transaction "ton_sau") (JNum 0);
            type := or_else (get transaction "type") (JStr "NHAP") |}.
Proof.
  intros Na Nd S. unfold transaction_of. cbn [get lookup_prop].
  rewrite String.eqb_refl. cbn [get_opt].
  destruct (String.eqb_spec key "alarm") as [?|_]; [done|].
  destruct (String.eqb_spec key "door") as [?|_]; [done|].
  cbn [negb andb]. by rewrite bool_decide_eq_true_2.
Qed.

Lemma omap_three {A B : Type} (f : A -> option B) a b c y :
  f a = None -> f b = None -> f c = Some y -> omap f [a; b; c] = [y].
Proof. intros Ha Hb Hc. cbn. by rewrite Ha, Hb, Hc. Qed.

(** C6.  For a history made of an [alarm] mapping with one entry, a [door]
    mapping with one entry and one other record with an [amount], in any
    order of the three keys, the value callback publishes exactly one alarm
    event (its event, or "ALARM"), exactly one door event (its event, or
    "OPEN") and exactly one transaction.  For every history, no transaction
    carries the key [alarm] or [door], and a record without [amount] yields
    no transaction. *)
Theorem C6_reconcile_partitions
    (data : JsVal) (props : list (string * JsVal))
    (ka kd kt : string) (va vd vt : JsVal) (s : state) :
  get data "history" = Some (JObj props) ->
  Permutation props [("alarm", JObj [(ka, va)]); ("door", JObj [(kd, vd)]); (kt, vt)] ->
  kt <> "alarm" -> kt <> "door" ->
  is_Some (get vt "amount") ->
  let s' := onWarehouseValue (Some data) s in
  getAlarmHistory s' =
    [{| alarm_timestamp := ka; alarm_event := or_else (get va "event") (JStr "ALARM") |}] /\
  getDoorHistory s' =
    [{| door_timestamp := kd; door_event := or_else (get vd "event") (JStr "OPEN") |}] /\
  getHistory s' =
    [{| date := kt;
        amount := or_else (get vt "amount") (JNum 0);
        ton_sau := or_else (get vt "ton_sau") (JNum 0);
        type := or_else (get vt "type") (JStr "NHAP") |}] /\
  (get va "event" = None -> or_else (get va "event") (JStr "ALARM") = JStr "ALARM") /\
  (get vd "event" = None -> or_else (get vd "event") (JStr "OPEN") = JStr "OPEN") /\
  (forall history s0 tx,
      In tx (getHistory (reconcile history s0)) ->
      date tx <> "alarm" /\ date tx <> "door" /\
      is_Some (get_opt (get history (date tx)) "amount")).
Proof.
  intros Eh P Na Nd Sa s'.
  assert (ND : NoDup (map fst props)).
  { rewrite P. cbn [map fst]. apply NoDup_cons. split.
    - rewrite !not_elem_of_cons. split; [discriminate|].
      split; [congruence|apply not_elem_of_nil].
    - apply NoDup_cons. split; [|apply NoDup_singleton].
      rewrite not_elem_of_cons. split; [congruence|apply not_elem_of_nil]. }
  assert (La : get (JObj props) "alarm" = Some (JObj [(ka, va)])).
  { apply lookup_prop_In; [done|]. apply (Permutation_in _ (symmetry P)). by left. }
  assert (Ld : get (JObj props) "door" = Some (JObj [(kd, vd)])).
  { apply lookup_prop_In; [done|]. apply (Permutation_in _ (symmetry P)). right. by left. }
  assert (Et : transaction_entries (JObj props) =
               [{| date := kt;
                   amount := or_else (get vt "amount") (JNum 0);
                   ton_sau := or_else (get vt "ton_sau") (JNum 0);
                   type := or_else (get vt "type") (JStr "NHAP") |}]).
  { apply Permutation_singleton_r.
    rewrite (transaction_entries_object props ND), P.
    rewrite (omap_three (fun kv : string * JsVal => transaction_of (JObj [kv]) kv.1)
               ("alarm", JObj [(ka, va)]) ("door", JObj [(kd, vd)]) (kt, vt) _
               eq_refl eq_refl (transaction_of_single kt vt Na Nd Sa)).
    reflexivity. }
  unfold s', onWarehouseValue. rewrite Eh. cbn [truthy].
  unfold reconcile, getAlarmHistory, getDoorHistory, getHistory.
  cbn [alarmHistorySubject doorHistorySubject historySubject].
  rewrite La, Ld. cbn [truthy].
  unfold transactions. rewrite Et.
  unfold alarmEvents, doorEvents, alarm_entries, door_entries.
  cbn [keys map fst get lookup_prop]. rewrite !String.eqb_refl. cbn [get_opt sort sort_insert].
  split; [done|]. split; [done|]. split; [done|].
  split; [by intros ->|]. split; [by intros ->|].
  intros history s0 tx I. apply transactions_sound in I. tauto.
Qed.

(** The three sequences are independent.  Without [history] the callback
    keeps all three and only publishes the quantity (0 when absent or falsy)
    and loading = false; within a history, an absent [alarm] or [door] mapping
    leaves the previously published sequence in place; the transactions
    published are the entries of the history, rearranged by the sort. *)
Theorem sequences_are_independent (data history : JsVal) (s : state) :
  (get data "history" = None ->
   getHistory (onWarehouseValue (Some data) s) = getHistory s /\
   getAlarmHistory (onWarehouseValue (Some data) s) = getAlarmHistory s /\
   getDoorHistory (onWarehouseValue (Some data) s) = getDoorHistory s /\
   currentInventorySubject (onWarehouseValue (Some data) s) =
     or_else (get data "quantity") (JNum 0) /\
   isLoadingSubject (onWarehouseValue (Some data) s) = false) /\
  (get history "alarm" = None ->
   getAlarmHistory (reconcile history s) = getAlarmHistory s) /\
  (get history "door" = None ->
   getDoorHistory (reconcile history s) = getDoorHistory s) /\
  Permutation (getHistory (reconcile history s)) (transaction_entries history) /\
  onWarehouseValue None s = s.
Proof.
  split; [|split; [|split; [|split]]].
  - intros E. unfold onWarehouseValue. rewrite E. repeat split.
  - intros E. unfold reconcile, getAlarmHistory. cbn. by rewrite E.
  - intros E. unfold reconcile, getDoorHistory. cbn. by rewrite E.
  - apply sort_Permutation.
  - reflexivity.
Qed.

End Reconcile.

Import SampleEngine.

(** The specification's example, with the stand-in engine. *)
Lemma C6_reconcile_partitions_witness :
  let s' := onWarehouseValue (Some (JObj [("quantity", JNum 150); ("history", example_ledger)])) init in
  getAlarmHistory s' =
    [{| alarm_timestamp := "2026-01-05_16-37-41"; alarm_event := JStr "ALARM" |}] /\
  getDoorHistory s' =
    [{| door_timestamp := "2026-01-05_16-30-00"; door_event := JStr "OPEN" |}] /\
  getHistory s' =
    [{| date := "2025-12-20_20-11-20"; amount := JNum 50; ton_sau := JNum 150;
        type := JStr "NHAP" |}].
Proof.
  pose proof (C6_reconcile_partitions
                (JObj [("quantity", JNum 150); ("history", example_ledger)])
                [("alarm", JObj [("2026-01-05_16-37-41", JObj [("event", JStr "ALARM")])]);
                 ("door", JObj [("2026-01-05_16-30-00", JObj [("event", JStr "OPEN")])]);
                 ("2025-12-20_20-11-20",
                  JObj [("amount", JNum 50); ("ton_sau", JNum 150); ("type", JStr "NHAP")])]
                "2026-01-05_16-37-41" "2026-01-05_16-30-00" "2025-12-20_20-11-20"
                (JObj [("event", JStr "ALARM")]) (JObj [("event", JStr "OPEN")])
                (JObj [("amount", JNum 50); ("ton_sau", JNum 150); ("type", JStr "NHAP")])
                init eq_refl (Permutation_refl _)
                ltac:(discriminate) ltac:(discriminate) (ex_intro _ _ eq_refl))
    as (Ea & Ed & Et & _).
  exact (conj Ea (conj Ed Et)).
Defined.

(** The failing ledger: the two transactions stay oldest first. *)
Lemma C3_unparsed_keys_keep_the_key_order_witness :
  transactions two_transactions =
    [{| date := "2025-12-20_20-11-20"; amount := JNum 50; ton_sau := JNum 150;
        type := JStr "NHAP" |};
     {| date := "2025-12-21_09-30-00"; amount := JNum 20; ton_sau := JNum 130;
        type := JStr "XUAT" |}].
Proof.
  refine (eq_trans (proj1 (C3_unparsed_keys_keep_the_key_order two_transactions _)) _).
  - intros key [<-|[<-|[]]]; vm_compute; reflexivity.
  - vm_compute. reflexivity.
Defined.

(** On keys the engine parses, the same code does sort newest first. *)
Example parsed_keys_are_sorted :
  map date (transactions two_transactions_utc) =
    ["2025-12-21T09:30:00Z"; "2025-12-20T20:11:20Z"].
Proof. vm_compute. reflexivity. Qed.

End WarehouseFacts.

(** ** The timestamp codec *)

Module TimestampFacts.
Import Js Spec WarehouseService.

(** A string without the separator is not split. *)
Lemma split_without_separator c s :
  (forall a, In a (String.list_ascii_of_string s) -> a <> c) -> split c s = [s].
Proof.
  induction s as [|a s IH]; intros N; cbn [split]; [done|].
  destruct (Ascii.eqb_spec a c) as [E|_].
  - exfalso. apply (N a); [by left|done].
  - rewrite IH; [done|]. intros b Hb. apply N. by right.
Qed.

Section Format.
Context `{DateFormat}.

Lemma newDate_not_finite year monthIndex day hour minute second :
  forallb is_finite [year; monthIndex; day; hour; minute; second] = false ->
  toLocaleString (newDate year monthIndex day hour minute second) = "Invalid Date".
Proof. unfold newDate. by intros ->. Qed.

(** An array of fewer than three components leaves a component undefined. *)
Lemma short_array_component (parts : list float) :
  length parts < 3 -> is_finite (component parts 2) = false.
Proof.
  intros L. unfold component. rewrite nth_overflow by lia. reflexivity.
Qed.

(** C5 on the code.  [formatDate] returns its argument exactly when the
    string holds no underscore (then [timePart] is undefined and the
    [TypeError] is caught), as for "not-a-date".  With an underscore nothing
    throws: the result is the rendering of the date, and "Invalid Date" as
    soon as an argument of the date is not finite, which is the case when the
    date part or the time part has fewer than three components; so
    "not_a_date", which does not match the pattern, is not returned unchanged
    but rendered "Invalid Date". *)
Theorem C5_formatDate_fallback :
  (forall s, (forall a, In a (String.list_ascii_of_string s) -> a <> "_"%char) -> formatDate s = s) /\
  formatDate "not-a-date" = "not-a-date" /\
  (forall s datePart timePart rest,
      split "_" s = datePart :: timePart :: rest ->
      let ymd := map Number (split "-" datePart) in
      let hms := map Number (split "-" timePart) in
      formatDate s =
        toLocaleString
          (newDate (component ymd 0) (component ymd 1 - 1)%float (component ymd 2)
                   (component hms 0) (component hms 1) (component hms 2)) /\
      (length (split "-" datePart) < 3 \/ length (split "-" timePart) < 3 ->
       formatDate s = "Invalid Date")) /\
  formatDate "not_a_date" = "Invalid Date" /\
  formatDate "not_a_date" <> "not_a_date".
Proof.
  assert (G : forall s datePart timePart rest,
      split "_" s = datePart :: timePart :: rest ->
      let ymd := map Number (split "-" datePart) in
      let hms := map Number (split "-" timePart) in
      formatDate s =
        toLocaleString
          (newDate (component ymd 0) (component ymd 1 - 1)%float (component ymd 2)
                   (component hms 0) (component hms 1) (component hms 2)) /\
      (length (split "-" datePart) < 3 \/ length (split "-" timePart) < 3 ->
       formatDate s = "Invalid Date")).
  { intros s datePart timePart rest E ymd hms.
    assert (F : formatDate s =
        toLocaleString
          (newDate (component ymd 0) (component ymd 1 - 1)%float (component ymd 2)
                   (component hms 0) (component hms 1) (component hms 2))).
    { unfold formatDate. by rewrite E. }
    split; [exact F|]. intros L. rewrite F. apply newDate_not_finite.
    cbn [forallb]. destruct L as [L|L].
    - rewrite (short_array_component ymd) by (unfold ymd; by rewrite length_map).
      by rewrite !andb_false_r.
    - rewrite (short_array_component hms) by (unfold hms; by rewrite length_map).
      by rewrite !andb_false_r. }
  assert (I : formatDate "not_a_date" = "Invalid Date").
  { apply (G "not_a_date" "not" "a" ["date"] eq_refl). left. cbn. lia. }
  split; [|split; [|split; [exact G|split; [exact I|]]]].
  - intros s N. unfold formatDate. by rewrite (split_without_separator _ _ N).
  - reflexivity.
  - rewrite I. discriminate.
Qed.

End Format.

End TimestampFacts.

(** ** The theft alert *)

Module DashboardFacts.
Import DashboardComponent.


Lemma run_timers_not_due fuel now s t :
  earliest (timers s) = Some t -> (now < t)%Z -> run_timers fuel now s = s.
Proof.
  intros E L. destruct fuel; cbn [run_timers]; [done|].
  rewrite E. by rewrite (proj2 (Z.leb_gt _ _) L).
Qed.



End DashboardFacts.

(** ** More on the rolling window *)

Module WindowFacts.
Import Js Spec SensorHistoryService SensorHistoryFacts.

Lemma addReadings_value rs s :
  wf s ->
  wf (addReadings rs s) /\
  value (addReadings rs s) =
    fold_left (fun a r => trim (a ++ [reading_of r])) rs (value s).
Proof.
  revert s. induction rs as [|[[t h] n] rs IH]; intros s W; [done|].
  change (addReadings ((t, h, n) :: rs) s) with (addReadings rs (addReading t h n s)).
  destruct (IH (addReading t h n s)) as (W' & E); [by apply addReading_wf|].
  split; [done|]. rewrite E, addReading_value by done. done.
Qed.

Lemma fold_trim_from (a : list SensorReading) (rs : list (float * float * float)) :
  fold_left (fun a r => trim (a ++ [reading_of r])) rs (last_n maxReadings a) =
  last_n maxReadings (a ++ map reading_of rs).
Proof.
  revert a. induction rs as [|r rs IH]; intros a.
  - by rewrite app_nil_r.
  - cbn [fold_left map]. rewrite trim_last_n, IH. by rewrite <- app_assoc.
Qed.

Lemma last_n_short {A : Type} n (a : list A) : length a <= n -> last_n n a = a.
Proof. intros L. unfold last_n. by replace (length a - n) with 0 by lia. Qed.

Lemma addReadings_last_n (s : state) (rs : list (float * float * float)) :
  wf s -> length (value s) <= 100 ->
  value (addReadings rs s) = last_n 100 (value s ++ map reading_of rs) /\
  length (value (addReadings rs s)) = Nat.min (length (value s) + length rs) 100.
Proof.
  intros W L. destruct (addReadings_value rs s W) as [_ E].
  assert (Ev : value (addReadings rs s) = last_n 100 (value s ++ map reading_of rs)).
  { rewrite E. rewrite <- (last_n_short maxReadings (value s)) at 1 by done.
    apply fold_trim_from. }
  split; [exact Ev|].
  rewrite Ev. unfold last_n. rewrite length_drop, length_app, length_map. lia.
Qed.

(** From any window within the capacity, a run of [addReading] calls leaves
    the last 100 of the old contents followed by the new readings. *)
Theorem window_keeps_the_last_100 (s : state) (rs : list (float * float * float)) :
  wf s -> length (value s) <= 100 ->
  value (addReadings rs s) = last_n 100 (value s ++ map reading_of rs) /\
  length (value (addReadings rs s)) = Nat.min (length (value s) + length rs) 100.
Proof. apply addReadings_last_n. Qed.

Lemma window_keeps_the_last_100_witness :
  value (addReadings [(21, 51, 2)]%float one_reading) =
    last_n 100 (value one_reading ++ map reading_of [(21, 51, 2)]%float).
Proof.
  refine (proj1 (window_keeps_the_last_100 one_reading [(21, 51, 2)]%float _ _)).
  - exists [0]. split; [vm_compute; reflexivity|].
    constructor; [vm_compute; eauto|constructor].
  - vm_compute. lia.
Defined.

(** [addReading] never shortens the window: below the capacity it grows by
    one, at or above the capacity it keeps its length, dropping the oldest
    element; a window made longer than 100 through the shared array is not
    brought back to 100. *)
Theorem addReading_never_shortens (s : state) (t h n : float) :
  wf s ->
  length (value (addReading t h n s)) =
    (if (length (value s) <? 100)%nat then S (length (value s)) else length (value s)) /\
  (100 <= length (value s) ->
   value (addReading t h n s) = drop 1 (value s) ++ [reading_of (t, h, n)]).
Proof.
  intros W. rewrite addReading_value by done.
  assert (Lp : length (value s ++ [reading_of (t, h, n)]) = S (length (value s))).
  { rewrite length_app. cbn. lia. }
  unfold trim. change maxReadings with 100.
  destruct (Nat.ltb_spec 100 (length (value s ++ [reading_of (t, h, n)]))) as [G|G];
    rewrite Lp in G.
  - rewrite length_drop, Lp.
    destruct (Nat.ltb_spec (length (value s)) 100) as [G'|G']; [lia|].
    split; [lia|]. intros _. by rewrite drop_app_le by lia.
  - rewrite Lp.
    destruct (Nat.ltb_spec (length (value s)) 100) as [G'|G']; [|lia].
    split; [done|]. lia.
Qed.

Lemma addReading_never_shortens_witness :
  length (value (addReading 21 51 2 one_reading)) = 2.
Proof.
  refine (eq_trans (proj1 (addReading_never_shortens one_reading 21 51 2 _)) _).
  - exists [0]. split; [vm_compute; reflexivity|].
    constructor; [vm_compute; eauto|constructor].
  - vm_compute. reflexivity.
Defined.

Lemma clearReadings_wf s : wf (clearReadings s).
Proof.
  exists []. split; [|constructor]. unfold clearReadings. cbn. by rewrite lookup_insert_eq.
Qed.

(** After [clearReadings] the window starts afresh, whatever it held: a run
    of [addReading] calls leaves exactly the last 100 readings of the run. *)
Theorem clearReadings_restarts (s : state) (rs : list (float * float * float)) :
  value (addReadings rs (clearReadings s)) = last_n 100 (map reading_of rs) /\
  length (value (addReadings rs (clearReadings s))) = Nat.min (length rs) 100.
Proof.
  assert (E : value (clearReadings s) = []).
  { unfold value, clearReadings, deref. cbn. by rewrite lookup_insert_eq. }
  destruct (addReadings_last_n (clearReadings s) rs (clearReadings_wf s)) as [Ev El].
  { rewrite E. cbn. lia. }
  rewrite E in Ev, El. done.
Qed.

End WindowFacts.

(** ** Runs of the telemetry listeners *)

Module ListenerFacts.
Import Js Spec IoTService IoTListener SensorHistoryFacts WindowFacts.

Section Runs.
Context `{ParseFloat}.

Lemma run_app es es' s : run (es ++ es') s = run es' (run es s).
Proof. unfold run. apply fold_left_app. Qed.

Lemma consistent_ingest data date now s : consistent (onSensorValue (Some data) date now s).
Proof. reflexivity. Qed.

Lemma consistent_step e s : consistent s -> consistent (step s e).
Proof.
  intros C. destruct e as [[data|] date now| |[m|]|]; try exact C.
  apply consistent_ingest.
Qed.

(** Once a snapshot has been ingested, the published status is the status of
    the published temperature and humidity, whatever callbacks follow.  The
    initial state is not of this kind: it publishes 'optimal' with the
    reading (0, 0), which classifies as critical. *)
Theorem status_follows_the_reading
    (data : JsVal) (date now t0 : number) (es : list event) (s : state) :
  consistent (run es (onSensorValue (Some data) date now s)) /\
  ~ consistent (init t0) /\
  status_of (getTemperature (init t0)) (getHumidity (init t0)) = critical.
Proof.
  split; [|split; [discriminate|reflexivity]].
  generalize (consistent_ingest data date now s).
  generalize (onSensorValue (Some data) date now s). clear s.
  induction es as [|e es IH]; intros s C; [exact C|].
  apply IH. by apply consistent_step.
Qed.

Lemma run_history es s :
  sensorHistory (run es s) =
    SensorHistoryService.addReadings (omap reading_pushed es) (sensorHistory s).
Proof.
  revert s. induction es as [|e es IH]; intros s; [done|].
  change (run (e :: es) s) with (run es (step s e)). rewrite IH.
  destruct e as [[data|] date now| |[m|]|]; reflexivity.
Qed.

Lemma run_loading es s :
  isLoadingSubject (run es s) = isLoadingSubject s && forallb quiet es.
Proof.
  revert s. induction es as [|e es IH]; intros s; [by rewrite andb_true_r|].
  change (run (e :: es) s) with (run es (step s e)). rewrite IH.
  destruct e as [[data|] date now| |[m|]|]; cbn; try reflexivity;
    by rewrite andb_false_r.
Qed.

(** From the initial state, after any callbacks: the rolling window holds the
    last 100 readings of the snapshots that existed, coerced, in order (a
    snapshot that does not exist, an error and the motion path push nothing);
    loading is still true exactly when no sensor snapshot existed and no
    sensor error occurred. *)
Theorem listeners_feed_the_window (t0 : number) (es : list event) :
  SensorHistoryService.value (sensorHistory (run es (init t0))) =
    last_n 100 (map SensorHistoryService.reading_of (omap reading_pushed es)) /\
  length (SensorHistoryService.value (sensorHistory (run es (init t0)))) =
    Nat.min (length (omap reading_pushed es)) 100 /\
  isLoadingSubject (run es (init t0)) = forallb quiet es.
Proof.
  rewrite run_history, run_loading.
  destruct (addReadings_last_n SensorHistoryService.init (omap reading_pushed es)
              wf_init) as [Ev El].
  { assert (E0 : SensorHistoryService.value SensorHistoryService.init = []) by reflexivity.
    rewrite E0. cbn. lia. }
  split; [exact Ev|]. split; [exact El|]. reflexivity.
Qed.

Lemma step_sensor_part e s s' :
  sensor_part s = sensor_part s' ->
  sensor_part (step s e) = (if is_motion e then sensor_part s' else sensor_part (step s' e)).
Proof.
  unfold sensor_part. intros E. injection E as Et Eh Es El Eo Ew.
  destruct e as [[data|] date now| |[m|]|];
    cbn [step onSensorValue onSensorError onMotionValue onMotionError updateStatus
         is_motion temperatureSubject humiditySubject statusSubject lastUpdatedSubject
         isLoadingSubject sensorHistory];
    unfold onMotionError; congruence.
Qed.

Lemma step_motion_part e s s' :
  motion_part s = motion_part s' ->
  motion_part (step s e) = (if is_motion e then motion_part (step s' e) else motion_part s').
Proof.
  unfold motion_part. intros E.
  destruct e as [[data|] date now| |[m|]|];
    cbn [step onSensorValue onSensorError onMotionValue onMotionError updateStatus
         is_motion motionSubject];
    unfold onMotionError; congruence.
Qed.

Lemma run_parts es s s1 s2 :
  sensor_part s = sensor_part s1 -> motion_part s = motion_part s2 ->
  sensor_part (run es s) = sensor_part (run (List.filter (fun e => negb (is_motion e)) es) s1) /\
  motion_part (run es s) = motion_part (run (List.filter is_motion es) s2).
Proof.
  revert s s1 s2. induction es as [|e es IH]; intros s s1 s2 E1 E2; [done|].
  change (run (e :: es) s) with (run es (step s e)).
  pose proof (step_sensor_part e s s1 E1) as S1.
  pose proof (step_motion_part e s s2 E2) as S2.
  cbn [List.filter]. destruct (is_motion e); cbn [negb].
  - change (run (e :: List.filter is_motion es) s2)
      with (run (List.filter is_motion es) (step s2 e)).
    by apply IH.
  - change (run (e :: List.filter (fun e => negb (is_motion e)) es) s1)
      with (run (List.filter (fun e => negb (is_motion e)) es) (step s1 e)).
    by apply IH.
Qed.

Lemma run_one_listener es s :
  (forallb is_motion es = true -> sensor_part (run es s) = sensor_part s) /\
  (forallb (fun e => negb (is_motion e)) es = true -> motion_part (run es s) = motion_part s).
Proof.
  revert s. induction es as [|e es IH]; intros s; [done|].
  change (run (e :: es) s) with (run es (step s e)). cbn [forallb].
  destruct (IH (step s e)) as [IH1 IH2].
  split; intros F; apply andb_true_iff in F as [Fe F].
  - rewrite IH1 by done. by destruct e as [[data|] date now| |[m|]|].
  - rewrite IH2 by done. by destruct e as [[data|] date now| |[m|]|].
Qed.

(** The two listeners do not interfere.  Over any run of callbacks from any
    state, what the sensor listener publishes (temperature, humidity, status,
    time of the last update, loading flag, rolling window) is what the run
    without the motion callbacks publishes, and the motion flag is that of
    the run without the sensor callbacks; the sensor callbacks alone leave
    the motion flag as it was, and the motion callbacks alone leave the rest
    as it was. *)
Theorem listeners_do_not_interfere (es : list event) (s : state) :
  let sensor_only := List.filter (fun e => negb (is_motion e)) es in
  let motion_only := List.filter is_motion es in
  (getTemperature (run es s) = getTemperature (run sensor_only s) /\
   getHumidity (run es s) = getHumidity (run sensor_only s) /\
   getStatus (run es s) = getStatus (run sensor_only s) /\
   lastUpdatedSubject (run es s) = lastUpdatedSubject (run sensor_only s) /\
   isLoadingSubject (run es s) = isLoadingSubject (run sensor_only s) /\
   sensorHistory (run es s) = sensorHistory (run sensor_only s)) /\
  getMotion (run es s) = getMotion (run motion_only s) /\
  getMotion (run sensor_only s) = getMotion s /\
  sensor_part (run motion_only s) = sensor_part s.
Proof.
  intros sensor_only motion_only.
  destruct (run_parts es s s s eq_refl eq_refl) as [E1 E2].
  fold sensor_only in E1. fold motion_only in E2.
  unfold sensor_part in E1. injection E1 as Et Eh Es El Eo Ew.
  split; [by repeat split|]. split; [exact E2|]. split.
  - apply (proj2 (run_one_listener sensor_only s)).
    apply forallb_forall. intros e I. by apply List.filter_In in I as [_ I].
  - apply (proj1 (run_one_listener motion_only s)).
    apply forallb_forall. intros e I. by apply List.filter_In in I as [_ I].
Qed.

End Runs.

End ListenerFacts.

(** ** The gauges, colours and labels of the dashboard *)

Module DisplayFacts.
Import Js Spec NumberOrder IoTService DashboardView.

Lemma lex_lt_not_le a b : lex_lt a b -> ~ lex_le b a.
Proof.
  intros L [L'| ->].
  - eapply lex_lt_irrefl, lex_lt_trans; eauto.
  - by apply lex_lt_irrefl in L.
Qed.

Lemma lt_not_le x y : lt x y = true -> le y x = false.
Proof.
  unfold lt, le. rewrite ltb_iff. intros (_ & _ & L).
  destruct (y <=? x)%float eqn:E; [|done].
  apply leb_iff in E as (_ & _ & L'). by apply lex_lt_not_le in L.
Qed.

(** On numbers that are not NaN, [x < c] is the negation of [c <= x]. *)
Lemma lt_negb_le x c : notnan x -> notnan c -> lt x c = negb (le c x).
Proof.
  intros Nx Nc. destruct (lt x c) eqn:E.
  - by rewrite (lt_not_le _ _ E).
  - by rewrite (not_lt_le _ _ Nx Nc E).
Qed.

Lemma le_nan_l x y : is_nan x = true -> le x y = false.
Proof.
  intros N. destruct (le x y) eqn:E; [|done].
  apply leb_iff in E as (Nx & _). unfold notnan in Nx. congruence.
Qed.

Lemma le_nan_r x y : is_nan y = true -> le x y = false.
Proof.
  intros N. destruct (le x y) eqn:E; [|done].
  apply leb_iff in E as (_ & Ny & _). unfold notnan in Ny. congruence.
Qed.

Lemma lt_nan_l x y : is_nan x = true -> lt x y = false.
Proof.
  intros N. destruct (lt x y) eqn:E; [|done].
  apply ltb_iff in E as (Nx & _). unfold notnan in Nx. congruence.
Qed.

Lemma le_antisym x y : le x y = true -> le y x = true -> (x =? y)%float = true.
Proof.
  unfold le. rewrite !leb_iff, eqb_iff. intros (Nx & Ny & [L| E]) (_ & _ & L'); [|done].
  by apply lex_lt_not_le in L.
Qed.

(** A bound below another: [lo' <= lo <= x] and [x <= hi <= hi']. *)
Lemma le_weaken_l lo' lo x : le lo' lo = true -> le lo x = true -> le lo' x = true.
Proof. apply le_trans. Qed.

Lemma le_weaken_r x hi hi' : le hi hi' = true -> le x hi = true -> le x hi' = true.
Proof. intros H1 H2. by apply (le_trans x hi hi'). Qed.

(** The optimal band of a dimension lies within its warning band. *)
Lemma band_nested lo' lo hi hi' x :
  le lo' lo = true -> le hi hi' = true ->
  ge x lo && le x hi = true -> ge x lo' && le x hi' = true.
Proof.
  intros H1 H2. unfold ge. fold (le lo x). fold (le lo' x).
  rewrite !andb_true_iff. intros [A B].
  split; [by apply (le_weaken_l lo' lo)|by apply (le_weaken_r x hi hi')].
Qed.

(** The status the service publishes is the worse of the two statuses the
    dashboard shows per dimension. *)
Theorem status_is_the_worst_dimension (temperature humidity : number) :
  status_name (status_of temperature humidity) =
    worst (getTemperatureStatus temperature) (getHumidityStatus humidity).
Proof.
  unfold status_of, getTemperatureStatus, getHumidityStatus.
  pose proof (band_nested 12 16 26 30 temperature eq_refl eq_refl) as T.
  pose proof (band_nested 20 30 60 70 humidity eq_refl eq_refl) as Hm.
  destruct (ge temperature 16 && le temperature 26);
    destruct (ge temperature 12 && le temperature 30);
    destruct (ge humidity 30 && le humidity 60);
    destruct (ge humidity 20 && le humidity 70);
    try reflexivity;
    first [ discriminate (T eq_refl) | discriminate (Hm eq_refl) ].
Qed.

(** The status texts of a dimension are the text of its status, prefixed;
    the text of a status of the service is never the unknown one. *)
Theorem status_texts_agree (temperature humidity : number) (st : Status) :
  getTemperatureStatusText temperature =
    String.append "Khoảng " (getStatusText (getTemperatureStatus temperature)) /\
  getHumidityStatusText humidity =
    String.append "Khoảng " (getStatusText (getHumidityStatus humidity)) /\
  getStatusText (status_name st) <> "Không Xác Định".
Proof.
  unfold getTemperatureStatusText, getTemperatureStatus,
    getHumidityStatusText, getHumidityStatus.
  split; [|split].
  - destruct (ge temperature 16 && le temperature 26);
      destruct (ge temperature 12 && le temperature 30); reflexivity.
  - destruct (ge humidity 30 && le humidity 60);
      destruct (ge humidity 20 && le humidity 70); reflexivity.
  - destruct st; vm_compute; discriminate.
Qed.



(** [Math.max(0, Math.min(100, x))] on a number that is not NaN. *)
Lemma clamp_spec (x : number) :
  notnan x ->
  let g := Math_max [0%float; Math_min [100%float; x]] in
  le 0 g = true /\ le g 100 = true /\
  (le 0 x = true -> le x 100 = true -> (g =? x)%float = true) /\
  (le x 0 = true -> (g =? 0)%float = true) /\
  (le 100 x = true -> (g =? 100)%float = true).
Proof.
  intros Nx g.
  assert (N100 : notnan 100) by reflexivity.
  assert (N0 : notnan 0) by reflexivity.
  destruct (Math_min_spec [100%float; x]) as [Im Fm]; [done|by repeat constructor|].
  apply Forall_cons in Fm as [Lm100 Fm]. apply Forall_cons in Fm as [Lmx _].
  set (m := Math_min [100%float; x]) in *.
  assert (Nm : notnan m) by (destruct Im as [<-|[<-|[]]]; done).
  destruct (Math_max_spec [0%float; m]) as [Ig Fg]; [done|by repeat constructor|].
  apply Forall_cons in Fg as [L0g Fg]. apply Forall_cons in Fg as [Lmg _].
  fold g in Ig, L0g, Lmg.
  assert (Lg100 : le g 100 = true).
  { destruct Ig as [<-|[<-|[]]]; [reflexivity|exact Lm100]. }
  split; [exact L0g|]. split; [exact Lg100|]. split; [|split].
  - intros L0x Lx100. apply le_antisym.
    + destruct Ig as [<-|[<-|[]]]; [exact L0x|exact Lmx].
    + apply (le_trans x m g); [|exact Lmg].
      destruct Im as [<-|[<-|[]]]; [exact Lx100|by apply le_refl].
  - intros Lx0. apply le_antisym; [|exact L0g].
    destruct Ig as [<-|[<-|[]]]; [reflexivity|]. by apply (le_trans m x 0).
  - intros L100x. apply le_antisym; [exact Lg100|].
    apply (le_trans 100 m g); [|exact Lmg].
    destruct Im as [<-|[<-|[]]]; [reflexivity|exact L100x].
Qed.

Lemma clamp_nan (x : number) :
  is_nan x = true -> is_nan (Math_max [0%float; Math_min [100%float; x]]) = true.
Proof.
  intros N. unfold Math_min. cbn [existsb]. rewrite N. reflexivity.
Qed.

(** The gauges never leave the scale: a gauge is NaN (when the value is) or
    lies between 0 and 100.  The humidity gauge is the humidity itself from 0
    to 100, 0 below and 100 above. *)
Theorem gauges_stay_on_the_scale (temp humidity : number) :
  (is_nan (getTemperatureGauge temp) = true \/
   (le 0 (getTemperatureGauge temp) = true /\ le (getTemperatureGauge temp) 100 = true)) /\
  (is_nan humidity = true -> is_nan (getHumidityGauge humidity) = true) /\
  (is_nan humidity = false ->
   le 0 (getHumidityGauge humidity) = true /\ le (getHumidityGauge humidity) 100 = true /\
   (le 0 humidity = true -> le humidity 100 = true ->
    (getHumidityGauge humidity =? humidity)%float = true) /\
   (le humidity 0 = true -> (getHumidityGauge humidity =? 0)%float = true) /\
   (le 100 humidity = true -> (getHumidityGauge humidity =? 100)%float = true)).
Proof.
  split; [|split].
  - unfold getTemperatureGauge.
    destruct (is_nan (temp / 50 * 100)%float) eqn:N.
    + left. by apply clamp_nan.
    + right. destruct (clamp_spec _ N) as (A & B & _). by split.
  - apply clamp_nan.
  - intros N. apply (clamp_spec humidity N).
Qed.

(** The comparisons of the colour and status functions, once for a value that
    is not NaN and once for NaN. *)
Lemma thresholds_notnan (x lo lo' hi hi' : number) :
  notnan x -> notnan lo -> notnan lo' ->
  le lo lo' = true -> le lo' hi = true -> le hi hi' = true ->
  lt x lo = negb (le lo x) /\ lt x lo' = negb (le lo' x) /\
  (le lo' x = true -> le lo x = true) /\
  (le x hi = true -> le x hi' = true) /\
  (le lo' x = false -> le x hi = true).
Proof.
  intros Nx Nl Nl' L1 L2 L3. repeat split.
  - by apply lt_negb_le.
  - by apply lt_negb_le.
  - by apply le_trans.
  - intros L. by apply (le_trans x hi hi').
  - intros L. apply (le_trans x lo' hi); [|done].
    apply lt_le. rewrite lt_negb_le by done. by rewrite L.
Qed.

Ltac colour_cases :=
  repeat match goal with
         | |- context [(?a <=? ?b)%float] =>
             let E := fresh "E" in destruct (a <=? b)%float eqn:E
         end;
  cbn [negb andb];
  repeat split; intros; intuition congruence.

(** The colour of the humidity gauge tells the humidity status: green exactly
    when optimal, yellow exactly when warning, orange or red exactly when
    critical (also for NaN, which is red and critical). *)
Theorem humidity_colour_tells_the_status (humidity : number) :
  (getHumidityFillColor humidity = "#4CAF50" <-> getHumidityStatus humidity = "optimal") /\
  (getHumidityFillColor humidity = "#FFC107" <-> getHumidityStatus humidity = "warning") /\
  (getHumidityFillColor humidity = "#FF6F00" \/ getHumidityFillColor humidity = "#F44336"
   <-> getHumidityStatus humidity = "critical").
Proof.
  unfold getHumidityFillColor, getHumidityStatus.
  destruct (is_nan humidity) eqn:N.
  - rewrite !(lt_nan_l humidity) by done.
    rewrite !(le_nan_l humidity) by done. unfold ge.
    change (30 <=? humidity)%float with (le 30 humidity).
    change (20 <=? humidity)%float with (le 20 humidity).
    rewrite !(le_nan_r _ humidity) by done. cbn [andb].
    repeat split; intros; intuition congruence.
  - destruct (thresholds_notnan humidity 20 30 60 70 N eq_refl eq_refl
                eq_refl eq_refl eq_refl) as (-> & -> & M1 & M2 & M3).
    unfold ge, le in *. colour_cases.
Qed.

(** The colour of the temperature gauge is coarser than the status: an
    optimal temperature is green, a yellow one is warning, and blue, orange
    and red ones are critical, but green is every temperature from 10 to 26,
    so also the warning temperatures from 12 to 16 and the critical ones from
    10 to 12. *)
Theorem temperature_colour_and_status (temp : number) :
  (getTemperatureStatus temp = "optimal" -> getTemperatureFillColor temp = "#4CAF50") /\
  (getTemperatureFillColor temp = "#FFC107" -> getTemperatureStatus temp = "warning") /\
  (getTemperatureFillColor temp = "#2196F3" \/ getTemperatureFillColor temp = "#FF9800" \/
   getTemperatureFillColor temp = "#F44336" -> getTemperatureStatus temp = "critical") /\
  (getTemperatureFillColor temp = "#4CAF50" <-> within 10 temp 26).
Proof.
  unfold getTemperatureFillColor, getTemperatureStatus, within.
  destruct (is_nan temp) eqn:N.
  - unfold ge.
    change (16 <=? temp)%float with (le 16 temp).
    change (12 <=? temp)%float with (le 12 temp).
    change (10 <=? temp)%float with (le 10 temp).
    change (temp <=? 26)%float with (le temp 26).
    rewrite !(lt_nan_l temp), !(le_nan_l temp), !(le_nan_r _ temp) by done.
    cbn [andb].
    repeat split; intros; intuition congruence.
  - destruct (thresholds_notnan temp 10 16 26 30 N eq_refl eq_refl
                eq_refl eq_refl eq_refl) as (-> & -> & M1 & M2 & M3).
    pose proof (le_trans 12 16 temp eq_refl) as M4.
    pose proof (le_trans 10 12 temp eq_refl) as M5.
    pose proof (fun L => le_trans temp 30 35 L eq_refl) as M6.
    unfold ge, le in *. colour_cases.
Qed.

End DisplayFacts.

(** ** The error messages and the route guards *)

Module AuthFacts.
Import Js AuthService AuthGuard.

Lemma truthy_or_else o d : truthy d = true -> truthy (or_else o d) = true.
Proof.
  intros D. destruct o as [v|]; cbn; [|done]. by destruct (truthy v) eqn:E.
Qed.

(** The message of the error [handleError] returns is never empty (nor any
    other falsy value).  For each of the six known codes it is a fixed
    message, whatever else the error holds; without a code it is the generic
    message; for any other code it is the error's own message, or the generic
    one when that is missing or empty. *)
Theorem handleError_message (error : JsVal) :
  truthy (handleError error) = true /\
  Forall (fun c => get error "code" = Some (JStr c) ->
                   handleError error = handleError (JObj [("code", JStr c)]))
         known_codes /\
  (get error "code" = None -> handleError error = JStr "An error occurred") /\
  (forall code, get error "code" = Some code -> truthy code = true ->
                Forall (fun c => code <> JStr c) known_codes ->
                handleError error = or_else (get error "message") (JStr "An error occurred")).
Proof.
  split; [|split; [|split]].
  - unfold handleError. destruct (get error "code") as [code|]; [|done].
    destruct (truthy code); [|done].
    assert (D : truthy (or_else (get error "message") (JStr "An error occurred")) = true)
      by (by apply truthy_or_else).
    destruct code as [b|x|c|props]; try exact D.
    destruct (String.eqb c "auth/email-already-in-use"); [reflexivity|].
    destruct (String.eqb c "auth/invalid-email"); [reflexivity|].
    destruct (String.eqb c "auth/weak-password"); [reflexivity|].
    destruct (String.eqb c "auth/user-not-found"); [reflexivity|].
    destruct (String.eqb c "auth/wrong-password"); [reflexivity|].
    destruct (String.eqb c "auth/operation-not-allowed"); [reflexivity|].
    exact D.
  - unfold known_codes, handleError.
    repeat (constructor; [intros ->; reflexivity|]). constructor.
  - unfold handleError. by intros ->.
  - intros code E T K. unfold handleError. rewrite E, T.
    destruct code as [b|x|c|props]; try reflexivity.
    unfold known_codes in K.
    repeat (apply Forall_cons in K as [? K]).
    destruct (String.eqb_spec c "auth/email-already-in-use"); [subst; congruence|].
    destruct (String.eqb_spec c "auth/invalid-email"); [subst; congruence|].
    destruct (String.eqb_spec c "auth/weak-password"); [subst; congruence|].
    destruct (String.eqb_spec c "auth/user-not-found"); [subst; congruence|].
    destruct (String.eqb_spec c "auth/wrong-password"); [subst; congruence|].
    destruct (String.eqb_spec c "auth/operation-not-allowed"); [subst; congruence|].
    reflexivity.
Qed.

(** For every sign-in state exactly one of the two guards lets the route
    through, and the one that refuses starts one navigation: to [/login] with
    the requested URL as [returnUrl], or to [/dashboard]. *)
Theorem guards_are_complementary {User : Type} (currentUser : option User) (url : string) :
  (authGuard currentUser url).1 = negb (noAuthGuard currentUser).1 /\
  ((authGuard currentUser url).1 = false <->
   (authGuard currentUser url).2 =
     Some {| commands := ["/login"]; returnUrl := Some url |}) /\
  ((authGuard currentUser url).1 = true <-> (authGuard currentUser url).2 = None) /\
  ((noAuthGuard currentUser).1 = false <->
   (noAuthGuard currentUser).2 =
     Some {| commands := ["/dashboard"]; returnUrl := None |}) /\
  ((noAuthGuard currentUser).1 = true <-> (noAuthGuard currentUser).2 = None).
Proof.
  destruct currentUser; cbn; repeat split; intros; congruence.
Qed.

End AuthFacts.

(** ** More on the ledger *)

Module LedgerFacts.
Import Js Spec SortFacts WarehouseService WarehouseFacts WarehouseLabels AuthFacts.

Section Ledger.
Context `{DateParse}.

(** Receiving the same snapshot again changes nothing. *)
Theorem same_snapshot_twice (snapshot : DataSnapshot) (s : state) :
  onWarehouseValue snapshot (onWarehouseValue snapshot s) = onWarehouseValue snapshot s.
Proof.
  destruct snapshot as [data|]; [|reflexivity].
  unfold onWarehouseValue.
  destruct (get data "history") as [history|]; [|reflexivity].
  destruct (truthy history); [|reflexivity].
  unfold reconcile. cbn.
  destruct (get history "alarm") as [alarm|]; [destruct (truthy alarm)|];
    (destruct (get history "door") as [door|]; [destruct (truthy door)|]);
    reflexivity.
Qed.

(** Every key of an alarm (door) mapping yields exactly one event, with that
    key as its timestamp and with the record's event, or the default label
    when the record has none or an empty one; the event is never empty. *)
Theorem one_event_per_key (mapping : JsVal) :
  Permutation (map alarm_timestamp (alarmEvents mapping)) (keys mapping) /\
  Permutation (map door_timestamp (doorEvents mapping)) (keys mapping) /\
  Forall (fun e => alarm_event e =
                     or_else (get_opt (get mapping (alarm_timestamp e)) "event") (JStr "ALARM")
                   /\ truthy (alarm_event e) = true)
         (alarmEvents mapping) /\
  Forall (fun e => door_event e =
                     or_else (get_opt (get mapping (door_timestamp e)) "event") (JStr "OPEN")
                   /\ truthy (door_event e) = true)
         (doorEvents mapping).
Proof.
  split; [|split; [|split]].
  - unfold alarmEvents. rewrite sort_Permutation. unfold alarm_entries.
    rewrite map_map. cbn. by rewrite map_id.
  - unfold doorEvents. rewrite sort_Permutation. unfold door_entries.
    rewrite map_map. cbn. by rewrite map_id.
  - unfold alarmEvents. rewrite sort_Permutation. unfold alarm_entries.
    apply Forall_forall. intros e He. apply list_elem_of_In, in_map_iff in He as (k & <- & _).
    cbn. split; [done|]. by apply truthy_or_else.
  - unfold doorEvents. rewrite sort_Permutation. unfold door_entries.
    apply Forall_forall. intros e He. apply list_elem_of_In, in_map_iff in He as (k & <- & _).
    cbn. split; [done|]. by apply truthy_or_else.
Qed.

(** A published transaction holds the record's own amount, balance and type
    where they are truthy, and otherwise 0, 0 and "NHAP": a field is never
    undefined, empty or NaN. *)
Theorem transaction_fields_are_defaulted (history : JsVal) :
  Forall (fun tx =>
            let record := get history (date tx) in
            amount tx = or_else (get_opt record "amount") (JNum 0) /\
            ton_sau tx = or_else (get_opt record "ton_sau") (JNum 0) /\
            type tx = or_else (get_opt record "type") (JStr "NHAP") /\
            (truthy (amount tx) = true \/ amount tx = JNum 0) /\
            (truthy (ton_sau tx) = true \/ ton_sau tx = JNum 0) /\
            truthy (type tx) = true)
         (transactions history).
Proof.
  apply Forall_forall. intros tx I. apply list_elem_of_In, transactions_spec in I as (k & _ & E).
  apply transaction_of_Some in E as (<- & _ & _ & _ & Ea & Et & Ety).
  cbv zeta. rewrite Ea, Et, Ety. repeat split.
  - destruct (get_opt (get history (date tx)) "amount") as [v|]; cbn; [|by right].
    destruct (truthy v) eqn:T; [by left|by right].
  - destruct (get_opt (get history (date tx)) "ton_sau") as [v|]; cbn; [|by right].
    destruct (truthy v) eqn:T; [by left|by right].
  - by apply truthy_or_else.
Qed.

(** How the defaults are shown: an alarm without event is labelled and
    coloured as ALARM, a door event without event as OPEN, a transaction
    without type as an inbound one. *)
Theorem defaults_are_shown (mapping : JsVal) :
  Forall (fun e => get_opt (get mapping (alarm_timestamp e)) "event" = None ->
                   getEventLabel (alarm_event e) = JStr "Cảnh Báo" /\
                   getEventColor (alarm_event e) = "#F44336")
         (alarmEvents mapping) /\
  Forall (fun e => get_opt (get mapping (door_timestamp e)) "event" = None ->
                   getEventLabel (door_event e) = JStr "Mở Cửa" /\
                   getEventColor (door_event e) = "#2196F3")
         (doorEvents mapping) /\
  Forall (fun tx => get_opt (get mapping (date tx)) "type" = None ->
                    getTransactionTypeLabel (type tx) = "Nhập Hàng" /\
                    getTransactionTypeColor (type tx) = "#4CAF50")
         (transactions mapping).
Proof.
  split; [|split].
  - unfold alarmEvents. rewrite sort_Permutation. unfold alarm_entries.
    apply Forall_forall. intros e He. apply list_elem_of_In, in_map_iff in He as (k & <- & _).
    cbn. by intros ->.
  - unfold doorEvents. rewrite sort_Permutation. unfold door_entries.
    apply Forall_forall. intros e He. apply list_elem_of_In, in_map_iff in He as (k & <- & _).
    cbn. by intros ->.
  - apply Forall_forall. intros tx I.
    apply list_elem_of_In, transactions_spec in I as (k & _ & E).
    apply transaction_of_Some in E as (<- & _ & _ & _ & _ & _ & Ety).
    rewrite Ety. by intros ->.
Qed.

End Ledger.

(** A label is shown as it is when it is not one of the two known events, and
    every type other than "NHAP" is shown as an outbound transaction. *)
Theorem unknown_labels (event type : JsVal) :
  (event <> JStr "ALARM" -> event <> JStr "OPEN" ->
   getEventLabel event = event /\ getEventColor event = "#9E9E9E") /\
  (type <> JStr "NHAP" ->
   getTransactionTypeLabel type = "Xuất Hàng" /\ getTransactionTypeColor type = "#FF6F00").
Proof.
  assert (N : forall v s, v <> JStr s -> is_string v s = false).
  { intros v s Ne. destruct v as [b|x|s'|props]; cbn; try reflexivity.
    destruct (String.eqb_spec s' s); [subst; congruence|done]. }
  split.
  - intros Na No. unfold getEventLabel, getEventColor. by rewrite !N.
  - intros Nn. unfold getTransactionTypeLabel, getTransactionTypeColor. by rewrite !N.
Qed.

End LedgerFacts.

(** ** Well-formed keys of the ledger *)

Module KeyFacts.
Import Js Spec WarehouseService WarehouseLabels TimestampFacts.

Lemma split_at_separator c x y :
  (forall a, In a (String.list_ascii_of_string x) -> a <> c) ->
  split c (String.append x (String c y)) = x :: split c y.
Proof.
  induction x as [|a x IH]; intros N.
  - change (String.append "" (String c y)) with (String c y).
    cbn [split]. by rewrite Ascii.eqb_refl.
  - change (String.append (String a x) (String c y))
      with (String a (String.append x (String c y))).
    cbn [split]. destruct (Ascii.eqb_spec a c) as [E|_].
    + exfalso. apply (N a); [by left|done].
    + rewrite IH; [done|]. intros b Hb. apply N. by right.
Qed.

Lemma in_append a x y :
  In a (String.list_ascii_of_string (String.append x y)) ->
  In a (String.list_ascii_of_string x) \/ In a (String.list_ascii_of_string y).
Proof.
  induction x as [|b x IH]; [by right|].
  change (String.append (String b x) y) with (String b (String.append x y)).
  cbn [String.list_ascii_of_string In].
  intros [E|I]; [left; by left|]. destruct (IH I); [left; by right|by right].
Qed.

Lemma append_separator x c y z :
  String.append (String.append x (String c y)) z = String.append x (String c (String.append y z)).
Proof.
  induction x as [|b x IH]; [done|].
  change (String.append (String b x) (String c y))
    with (String b (String.append x (String c y))).
  change (String.append (String b (String.append x (String c y))) z)
    with (String b (String.append (String.append x (String c y)) z)).
  rewrite IH. done.
Qed.

(** Three plain components joined by [-] are split back into the three, and
    hold no [_]. *)
Lemma split_three a b c :
  plain a -> plain b -> plain c ->
  let joined := String.append a (String "-" (String.append b (String "-" c))) in
  split "-" joined = [a; b; c] /\
  (forall x, In x (String.list_ascii_of_string joined) -> x <> "_"%char).
Proof.
  intros Pa Pb Pc joined. split.
  - unfold joined. rewrite split_at_separator by (intros x Hx; by apply Pa).
    rewrite split_at_separator by (intros x Hx; by apply Pb).
    rewrite split_without_separator by (intros x Hx; by apply Pc). done.
  - intros x Hx. unfold joined in Hx.
    apply in_append in Hx as [Hx|[<-|Hx]]; [by apply Pa|done|].
    apply in_append in Hx as [Hx|[<-|Hx]]; [by apply Pb|done|by apply Pc].
Qed.

(** A check of [plain] that computes. *)
Lemma plain_check s :
  forallb (fun a => negb (Ascii.eqb a "-") && negb (Ascii.eqb a "_"))
          (String.list_ascii_of_string s) = true ->
  plain s.
Proof.
  intros C a I. rewrite forallb_forall in C. specialize (C a I).
  apply andb_true_iff in C as [C1 C2].
  split; intros ->; by rewrite Ascii.eqb_refl in *.
Qed.

Section Format.
Context `{DateFormat}.

(** On a key made of six plain components, [formatDate] renders the date of
    the six numbers, the month shifted to its index; whatever follows a
    second [_] is ignored. *)
Theorem formatDate_reads_the_six_components
    (year month day hour minute second : string) :
  Forall plain [year; month; day; hour; minute; second] ->
  formatDate (ledger_key year month day hour minute second) =
    toLocaleString
      (newDate (Number year) (Number month - 1)%float (Number day)
               (Number hour) (Number minute) (Number second)) /\
  (forall extra,
      formatDate (String.append (ledger_key year month day hour minute second)
                                (String "_" extra)) =
      formatDate (ledger_key year month day hour minute second)).
Proof.
  intros P.
  apply Forall_cons in P as [Py P]. apply Forall_cons in P as [Pm P].
  apply Forall_cons in P as [Pd P]. apply Forall_cons in P as [Ph P].
  apply Forall_cons in P as [Pi P]. apply Forall_cons in P as [Ps _].
  destruct (split_three year month day Py Pm Pd) as [Sd Nd].
  destruct (split_three hour minute second Ph Pi Ps) as [St Nt].
  set (datePart := String.append year (String "-" (String.append month (String "-" day)))) in *.
  set (timePart := String.append hour (String "-" (String.append minute (String "-" second)))) in *.
  assert (K : ledger_key year month day hour minute second =
              String.append datePart (String "_" timePart)).
  { unfold ledger_key, datePart. by rewrite !append_separator. }
  assert (F : forall rest,
      split "_" (String.append datePart (String "_" timePart)) = datePart :: timePart :: rest ->
      formatDate (String.append datePart (String "_" timePart)) =
        toLocaleString
          (newDate (Number year) (Number month - 1)%float (Number day)
                   (Number hour) (Number minute) (Number second))).
  { intros rest E. unfold formatDate. rewrite E, Sd, St. reflexivity. }
  assert (S1 : split "_" (String.append datePart (String "_" timePart)) = [datePart; timePart]).
  { rewrite split_at_separator by done. by rewrite split_without_separator. }
  rewrite K. split; [by apply (F [])|].
  intros extra. rewrite (F [] S1).
  unfold formatDate. rewrite append_separator.
  rewrite split_at_separator by done. rewrite split_at_separator by done.
  rewrite Sd, St. reflexivity.
Qed.

End Format.

Import SampleFormat.

Lemma formatDate_reads_the_six_components_witness :
  formatDate "2025-12-20_20-11-20" = "20:11:20 20/12/2025".
Proof.
  refine (eq_trans (proj1 (formatDate_reads_the_six_components
                             "2025" "12" "20" "20" "11" "20" _)) _).
  - repeat (apply List.Forall_cons; [apply plain_check; reflexivity|]).
    apply List.Forall_nil.
  - vm_compute. reflexivity.
Defined.

End KeyFacts.

(** ** The alert over a run of motion values *)

Module AlertFacts.
Import Js DashboardComponent DashboardView.

Lemma filter_all {A : Type} (P : A -> Prop) `{forall x, Decision (P x)} (l : list A) :
  Forall P l -> filter P l = l.
Proof.
  induction 1 as [|x l Px _ IH]; [done|]. by rewrite filter_cons_True, IH.
Qed.

Lemma filter_none {A : Type} (P : A -> Prop) `{forall x, Decision (P x)} (l : list A) :
  Forall (fun x => ~ P x) l -> filter P l = [].
Proof.
  induction 1 as [|x l Px _ IH]; [done|]. by rewrite filter_cons_False.
Qed.

Lemma earliest_In ts t : earliest ts = Some t -> In t ts.
Proof.
  revert t. induction ts as [|t' ts IH]; intros t; cbn [earliest]; [done|].
  destruct (earliest ts) as [t''|].
  - destruct (t'' <? t')%Z; intros E; injection E as <-; [right; by apply IH|by left].
  - intros E. injection E as <-. by left.
Qed.

Lemma earliest_sorted d ds : StronglySorted Z.le (d :: ds) -> earliest (d :: ds) = Some d.
Proof.
  intros S. apply StronglySorted_inv in S as [_ F]. cbn [earliest].
  destruct (earliest ds) as [t|] eqn:E; [|done].
  apply earliest_In in E. rewrite Forall_forall in F.
  assert (d <= t)%Z by (apply F; by apply list_elem_of_In).
  by rewrite (proj2 (Z.ltb_ge _ _)).
Qed.

(** The event loop on timers set in the order of their due times: the timers
    due by [now] fire, in order, and the others stay pending. *)
Lemma run_timers_sorted fuel now s :
  StronglySorted Z.le (timers s) -> length (timers s) <= fuel ->
  timers (run_timers fuel now s) = filter (fun d => now < d)%Z (timers s) /\
  emitted (run_timers fuel now s) =
    emitted s ++ map (fun d => (d, false)) (filter (fun d => d <= now)%Z (timers s)) /\
  alertTime (run_timers fuel now s) = alertTime s /\
  intruderAlert (run_timers fuel now s) =
    match filter (fun d => d <= now)%Z (timers s) with
    | [] => intruderAlert s
    | _ => false
    end.
Proof.
  revert s. induction fuel as [|fuel IH]; intros [fl at_ em ts]; cbn [timers emitted alertTime intruderAlert].
  - intros _ L. destruct ts; [|cbn in L; lia]. cbn. by rewrite app_nil_r.
  - intros S L. destruct ts as [|d ds].
    { cbn. by rewrite app_nil_r. }
    cbn [run_timers timers]. rewrite (earliest_sorted d ds S).
    pose proof (StronglySorted_inv S) as [S' F].
    destruct (Z.leb_spec d now) as [Le|Gt].
    + cbn [remove_first]. rewrite Z.eqb_refl.
      destruct (IH (next d false {| intruderAlert := fl; alertTime := at_;
                                     emitted := em; timers := ds |}))
        as (E1 & E2 & E3 & E4); [exact S'|cbn in *; lia|].
      cbn [next timers emitted alertTime intruderAlert] in *.
      rewrite E1, E2, E3, E4.
      rewrite (filter_cons_False (fun d => now < d)%Z) by lia.
      rewrite (filter_cons_True (fun d => d <= now)%Z) by lia.
      split; [done|]. split; [by rewrite <- app_assoc|]. split; [done|].
      match goal with |- match ?l with _ => _ end = _ => by destruct l end.
    + assert (Fa : Forall (fun x => now < x)%Z (d :: ds)).
      { constructor; [done|]. eapply Forall_impl; [exact F|]. cbn. intros; lia. }
      rewrite (filter_all (fun d => now < d)%Z) by done.
      rewrite (filter_none (fun d => d <= now)%Z)
        by (eapply Forall_impl; [exact Fa|cbn; intros; lia]).
      cbn. by rewrite app_nil_r.
Qed.

Lemma cleared_at_app s extra :
  map fst (filter (fun e : Z * bool => negb e.2) (emitted s ++ extra)) =
  cleared_at s ++ map fst (filter (fun e : Z * bool => negb e.2) extra).
Proof. unfold cleared_at. by rewrite filter_app, map_app. Qed.

Lemma raised_at_app s extra :
  map fst (filter (fun e : Z * bool => e.2) (emitted s ++ extra)) =
  raised_at s ++ map fst (filter (fun e : Z * bool => e.2) extra).
Proof. unfold raised_at. by rewrite filter_app, map_app. Qed.

Lemma fired_cleared (ds : list Z) :
  map fst (filter (fun e : Z * bool => negb e.2) (map (fun d => (d, false)) ds)) = ds /\
  map fst (filter (fun e : Z * bool => e.2) (map (fun d => (d, false)) ds)) = [].
Proof.
  induction ds as [|d ds [IH1 IH2]]; [done|]. cbn [map].
  rewrite filter_cons_True by done. rewrite filter_cons_False by (cbn; auto).
  cbn [map fst]. by rewrite IH1, IH2.
Qed.

(** What [advance] does when the timers are in the order of their due times. *)
Lemma advance_sorted now s :
  StronglySorted Z.le (timers s) ->
  timers (advance now s) = filter (fun d => now < d)%Z (timers s) /\
  cleared_at (advance now s) = cleared_at s ++ filter (fun d => d <= now)%Z (timers s) /\
  raised_at (advance now s) = raised_at s /\
  ((timers s = [] -> intruderAlert s = false) ->
   timers (advance now s) = [] -> intruderAlert (advance now s) = false).
Proof.
  intros S. destruct (run_timers_sorted (length (timers s)) now s S (le_n _))
    as (E1 & E2 & _ & E4).
  unfold advance. split; [exact E1|].
  unfold cleared_at at 1, raised_at at 1. rewrite E2, cleared_at_app, raised_at_app.
  destruct (fired_cleared (filter (fun d => d <= now)%Z (timers s))) as [-> ->].
  rewrite app_nil_r. split; [done|]. split; [done|].
  intros Off Et. rewrite E4. rewrite E1 in Et.
  destruct (filter (fun d => d <= now)%Z (timers s)) eqn:Ed; [|done].
  apply Off. destruct (timers s) as [|d ds]; [done|].
  destruct (decide (d <= now)%Z).
  - by rewrite filter_cons_True in Ed.
  - by rewrite filter_cons_True in Et by lia.
Qed.

Lemma filter_after_after (c t : Z) (M : list Z) :
  (c <= t)%Z ->
  filter (fun d => t < d)%Z (filter (fun d => c < d)%Z M) = filter (fun d => t < d)%Z M.
Proof.
  intros L. induction M as [|m M IH]; [done|].
  destruct (decide (c < m)%Z) as [C|C].
  - rewrite (filter_cons_True (fun d => c < d)%Z) by done.
    destruct (decide (t < m)%Z) as [C'|C'].
    + rewrite !(filter_cons_True (fun d => t < d)%Z) by done. by rewrite IH.
    + rewrite !(filter_cons_False (fun d => t < d)%Z) by done. done.
  - rewrite (filter_cons_False (fun d => c < d)%Z) by done.
    rewrite (filter_cons_False (fun d => t < d)%Z) by lia. done.
Qed.

Lemma filter_upto_split (c t : Z) (M : list Z) :
  StronglySorted Z.le M -> (c <= t)%Z ->
  filter (fun d => d <= t)%Z M =
    filter (fun d => d <= c)%Z M ++ filter (fun d => d <= t)%Z (filter (fun d => c < d)%Z M).
Proof.
  intros S L. induction S as [|m M S IH F]; [done|].
  destruct (decide (m <= c)%Z) as [C|C].
  - rewrite (filter_cons_True (fun d => d <= c)%Z) by done.
    rewrite (filter_cons_True (fun d => d <= t)%Z) by lia.
    rewrite (filter_cons_False (fun d => c < d)%Z) by lia.
    rewrite IH. done.
  - assert (Fa : Forall (fun d => c < d)%Z (m :: M)).
    { constructor; [lia|]. eapply Forall_impl; [exact F|]. cbn. intros; lia. }
    rewrite (filter_all (fun d => c < d)%Z (m :: M)) by done.
    rewrite (filter_none (fun d => d <= c)%Z (m :: M))
      by (eapply Forall_impl; [exact Fa|cbn; intros; lia]).
    done.
Qed.

Lemma due_sorted (A : list Z) :
  StronglySorted Z.le A -> StronglySorted Z.le (map (fun t => t + delay)%Z A).
Proof.
  induction 1 as [|a A S IH F]; cbn [map]; constructor; [done|].
  apply Forall_forall. intros d Hd. apply list_elem_of_In, in_map_iff in Hd as (t & <- & Ht).
  rewrite Forall_forall in F. specialize (F t (proj2 (list_elem_of_In _ _) Ht)). lia.
Qed.

Lemma filter_sorted (P : Z -> Prop) `{forall x, Decision (P x)} (M : list Z) :
  StronglySorted Z.le M -> StronglySorted Z.le (filter P M).
Proof.
  induction 1 as [|m M S IH F]; [constructor|].
  destruct (decide (P m)).
  - rewrite filter_cons_True by done. constructor; [done|].
    apply Forall_forall. intros d Hd. apply list_elem_of_filter in Hd as [_ Hd].
    rewrite Forall_forall in F. by apply F.
  - by rewrite filter_cons_False.
Qed.

Lemma snoc_sorted (A : list Z) (t : Z) :
  StronglySorted Z.le A -> Forall (fun a => a <= t)%Z A -> StronglySorted Z.le (A ++ [t]).
Proof.
  induction 1 as [|a A S IH F]; intros B; cbn [app].
  - repeat constructor.
  - apply Forall_cons in B as [Ba B]. constructor; [by apply IH|].
    apply Forall_app. split; [done|]. by repeat constructor.
Qed.

(** Time passes. *)
Lemma alert_inv_advance A c t s :
  alert_inv A c s -> StronglySorted Z.le A -> (c <= t)%Z ->
  alert_inv A t (advance t s).
Proof.
  intros (It & Ic & Ir & Io) S L.
  pose proof (due_sorted A S) as SM.
  assert (St : StronglySorted Z.le (timers s)) by (rewrite It; by apply filter_sorted).
  destruct (advance_sorted t s St) as (E1 & E2 & E3 & E4).
  split; [|split; [|split]].
  - rewrite E1, It. by apply filter_after_after.
  - rewrite E2, Ic, It. symmetry. by apply filter_upto_split.
  - by rewrite E3.
  - by apply E4.
Qed.

(** An alert is raised at the time the state is seen at. *)
Lemma alert_inv_trigger A t s :
  alert_inv A t s -> alert_inv (A ++ [t]) t (triggerTheftAlert t s).
Proof.
  intros (It & Ic & Ir & Io).
  assert (D : (0 < delay)%Z) by reflexivity.
  split; [|split; [|split]].
  - cbn. rewrite It, map_app, filter_app. cbn [map].
    rewrite (filter_cons_True (fun d => t < d)%Z) by lia. done.
  - unfold cleared_at. cbn [triggerTheftAlert next emitted].
    rewrite filter_app, map_app, map_app, filter_app. cbn [map].
    rewrite (filter_cons_False (fun d => d <= t)%Z) by lia.
    rewrite (filter_cons_False (fun e : Z * bool => negb e.2)) by (cbn; auto).
    rewrite filter_nil, !app_nil_r. exact Ic.
  - unfold raised_at. cbn [triggerTheftAlert next emitted].
    rewrite filter_app, map_app. rewrite filter_cons_True by done.
    rewrite filter_nil. cbn [map fst]. by rewrite <- Ir.
  - cbn. intros E. by destruct (timers s).
Qed.

Lemma alerts_cons e es :
  alerts (e :: es) = if truthy e.2 then e.1 :: alerts es else alerts es.
Proof.
  unfold alerts. destruct (truthy e.2) eqn:T.
  - rewrite filter_cons_True by (by rewrite T). done.
  - rewrite filter_cons_False by (rewrite T; intros []). done.
Qed.

Lemma motions_inv es :
  forall A c s,
    alert_inv A c s -> StronglySorted Z.le A -> Forall (fun a => a <= c)%Z A ->
    StronglySorted Z.le (map fst es) -> Forall (fun e => c <= e.1)%Z es ->
    exists c', alert_inv (A ++ alerts es) c' (motions es s) /\
               StronglySorted Z.le (A ++ alerts es) /\
               Forall (fun a => a <= c')%Z (A ++ alerts es) /\
               (c' = c \/ In c' (map fst es)).
Proof.
  induction es as [|[t m] es IH]; intros A c s I S B Se Fe.
  - exists c. rewrite app_nil_r. auto.
  - cbn [map fst] in Se. apply StronglySorted_inv in Se as [Se Ft].
    apply Forall_cons in Fe as [Lt _]. cbn [fst] in Lt.
    pose proof (alert_inv_advance A c t s I S Lt) as I1.
    assert (B1 : Forall (fun a => a <= t)%Z A).
    { eapply Forall_impl; [exact B|]. cbn. intros; lia. }
    assert (Ft' : Forall (fun e : Z * JsVal => t <= e.1)%Z es).
    { apply Forall_forall. intros e He. rewrite Forall_forall in Ft. apply Ft.
      apply list_elem_of_In, in_map. by apply list_elem_of_In. }
    change (motions ((t, m) :: es) s) with (motions es (onMotion m t (advance t s))).
    rewrite alerts_cons. cbn [fst snd]. unfold onMotion.
    destruct (truthy m).
    + destruct (IH (A ++ [t]) t (triggerTheftAlert t (advance t s)))
        as (c' & I' & S' & B' & C'); try done.
      * by apply alert_inv_trigger.
      * by apply snoc_sorted.
      * apply Forall_app. split; [done|]. by repeat constructor.
      * exists c'. rewrite <- app_assoc in I', S', B'. cbn [app] in I', S', B'.
        split; [exact I'|]. split; [exact S'|]. split; [exact B'|].
        cbn [map fst]. destruct C' as [->|C']; right; [by left|by right].
    + destruct (IH A t (advance t s)) as (c' & I' & S' & B' & C'); try done.
      exists c'. split; [exact I'|]. split; [exact S'|]. split; [exact B'|].
      cbn [map fst]. destruct C' as [->|C']; right; [by left|by right].
Qed.

(** Over any run of motion values in the order of time, seen once the last
    delay has elapsed: the alert was raised once per truthy motion value and
    cleared once per raised alert, 8000 ms after it; no timer is pending and
    the alert is off.  A falsy motion value neither raises nor clears. *)
Theorem every_alert_is_cleared_once (es : list (Z * JsVal)) (now : Z) :
  StronglySorted Z.le (map fst es) ->
  Forall (fun e => e.1 + delay <= now)%Z es ->
  let s := advance now (motions es init) in
  raised_at s = alerts es /\
  cleared_at s = map (fun t => t + delay)%Z (alerts es) /\
  timers s = [] /\
  intruderAlert s = false.
Proof.
  intros Se Fn s.
  set (c := match es with [] => now | e :: _ => e.1 end).
  assert (Fc : Forall (fun e : Z * JsVal => c <= e.1)%Z es).
  { destruct es as [|e es]; [constructor|]. cbn [map] in Se.
    apply StronglySorted_inv in Se as [_ F]. constructor; [unfold c; lia|].
    apply Forall_forall. intros e' He. rewrite Forall_forall in F. apply F.
    apply list_elem_of_In, in_map. by apply list_elem_of_In. }
  assert (Cn : (c <= now)%Z).
  { destruct es as [|e es]; [unfold c; lia|].
    apply Forall_cons in Fn as [Fn _]. unfold c, delay in *. lia. }
  assert (I0 : alert_inv [] c init) by (by repeat split).
  destruct (motions_inv es [] c init I0 (SSorted_nil _) (List.Forall_nil _) Se Fc)
    as (c' & I & S & B & C).
  cbn [app] in I, S, B.
  assert (Cn' : (c' <= now)%Z).
  { destruct C as [->|C]; [done|]. apply in_map_iff in C as (e & <- & He).
    rewrite Forall_forall in Fn. specialize (Fn e (proj2 (list_elem_of_In _ _) He)).
    unfold delay in Fn. lia. }
  destruct (alert_inv_advance _ _ now _ I S Cn') as (It & Ic & Ir & Io). fold s in It, Ic, Ir, Io.
  assert (Fd : Forall (fun d => d <= now)%Z (map (fun t => t + delay)%Z (alerts es))).
  { apply Forall_forall. intros d Hd.
    apply list_elem_of_In, in_map_iff in Hd as (t & <- & Ht).
    unfold alerts in Ht. apply in_map_iff in Ht as (e & <- & He).
    apply list_elem_of_In, list_elem_of_filter in He as [_ He].
    rewrite Forall_forall in Fn. by apply Fn. }
  assert (Et : timers s = []).
  { rewrite It. apply filter_none. eapply Forall_impl; [exact Fd|]. cbn. intros; lia. }
  split; [exact Ir|]. split; [|split; [exact Et|by apply Io]].
  rewrite Ic. by apply filter_all.
Qed.

Lemma every_alert_is_cleared_once_witness :
  cleared_at (advance 20000 (motions [(0, JBool true); (3000, JBool false); (5000, JBool true)]%Z init))
  = [8000; 13000]%Z.
Proof.
  refine (eq_trans (proj1 (proj2 (every_alert_is_cleared_once
            [(0, JBool true); (3000, JBool false); (5000, JBool true)]%Z 20000 _ _))) _).
  - cbn [map fst]. repeat (constructor; [|repeat (constructor; [lia|]); constructor]).
    constructor.
  - repeat (constructor; [unfold delay; cbn [fst]; lia|]). constructor.
  - reflexivity.
Defined.

(** Dismissing an alert turns the flag off at once but leaves its timer
    pending: the timer still fires 8000 ms after the alert and clears again. *)
Theorem dismissAlert_keeps_the_timer (t d now : Z) :
  (t <= d)%Z -> (d < t + delay)%Z -> (t + delay <= now)%Z ->
  let dismissed := dismissAlert d (advance d (triggerTheftAlert t init)) in
  intruderAlert dismissed = false /\
  timers dismissed = [t + delay]%Z /\
  emitted (advance now dismissed) = [(t, true); (d, false); (t + delay, false)]%Z /\
  timers (advance now dismissed) = [].
Proof.
  intros L1 L2 L3 dismissed.
  assert (E1 : advance d (triggerTheftAlert t init) = triggerTheftAlert t init).
  { apply (DashboardFacts.run_timers_not_due _ _ _ (t + delay)%Z); [reflexivity|lia]. }
  unfold dismissed. rewrite E1. split; [reflexivity|]. split; [reflexivity|].
  unfold advance. cbn [dismissAlert triggerTheftAlert next init timers emitted app length
                       run_timers earliest intruderAlert alertTime].
  rewrite (proj2 (Z.leb_le _ _)) by lia.
  cbn [remove_first]. rewrite Z.eqb_refl. split; reflexivity.
Qed.

Lemma dismissAlert_keeps_the_timer_witness :
  timers (dismissAlert 2000 (advance 2000 (triggerTheftAlert 0 init))) = [0 + delay]%Z.
Proof.
  exact (proj1 (proj2 (dismissAlert_keeps_the_timer 0 2000 9000
    ltac:(lia) ltac:(unfold delay; lia) ltac:(unfold delay; lia)))).
Defined.

End AlertFacts.

(** ** The display name of a registration *)

Module RegisterFacts.
Import Js AuthService TimestampFacts KeyFacts.

(** Without a display name (or with an empty one) [register] stores the part
    of the email before its first [@]; a display name that is given is stored
    as it is. *)
Theorem displayName_defaults_to_the_local_part (local domain name : string) :
  (forall a, In a (String.list_ascii_of_string local) -> a <> "@"%char) ->
  registered_displayName None (String.append local (String "@" domain)) = local /\
  registered_displayName (Some "") (String.append local (String "@" domain)) = local /\
  registered_displayName None local = local /\
  (name <> "" ->
   registered_displayName (Some name) (String.append local (String "@" domain)) = name).
Proof.
  intros N. unfold registered_displayName.
  rewrite (split_at_separator _ _ _ N), (split_without_separator _ _ N).
  repeat split. intros Ne. by destruct (String.eqb_spec name "").
Qed.

Lemma displayName_defaults_to_the_local_part_witness :
  registered_displayName None "alice@example.com" = "alice".
Proof.
  refine (proj1 (displayName_defaults_to_the_local_part "alice" "example.com" "" _)).
  intros a I. cbn in I.
  repeat (destruct I as [<-|I]; [discriminate|]). destruct I.
Defined.

End RegisterFacts.
